(** * Streamline tracing: a shallow embedding of [src/streamline.py]

    The function [streamline] builds interpolators for a gridded velocity
    field, wraps them in the velocity function handed to the ODE solver,
    integrates forward and backward from the seed and glues the two runs.

    Numbers are IEEE-754 binary64 values, taken from the specification of
    floating-point arithmetic shipped with the standard library
    ([SpecFloat], precision 53, exponent bound 1024): NaN, the infinities
    and the two zeros behave as they do in NumPy. *)

From Stdlib Require Import String ZArith List Bool Lia.
From Stdlib Require Import Floats.SpecFloat.
Import ListNotations.

Local Open Scope Z_scope.

(** ** Binary64 arithmetic *)

Definition float : Type := spec_float.

Module F64.

Definition prec : Z := 53.
Definition emax : Z := 1024.

Definition add : float -> float -> float := SFadd prec emax.
Definition sub : float -> float -> float := SFsub prec emax.
Definition mul : float -> float -> float := SFmul prec emax.
Definition div : float -> float -> float := SFdiv prec emax.
Definition sqrt : float -> float := SFsqrt prec emax.
Definition opp : float -> float := SFopp.
Definition ltb : float -> float -> bool := SFltb.
Definition leb : float -> float -> bool := SFleb.
Definition eqb : float -> float -> bool := SFeqb.

(** Conversion of a Python [int] to a float (round to nearest even). *)
Definition of_Z (z : Z) : float := binary_normalize prec emax z 0 false.

Definition zero : float := S754_zero false.
Definition one : float := of_Z 1.
Definition nan : float := S754_nan.

(** [np.isfinite] and [np.isnan] on one number. *)
Definition isfinite (x : float) : bool :=
  match x with
  | S754_zero _ | S754_finite _ _ _ => true
  | S754_infinity _ | S754_nan => false
  end.

Definition isnan (x : float) : bool :=
  match x with
  | S754_nan => true
  | _ => false
  end.

(** Either signed zero. *)
Definition is_zero (x : float) : bool :=
  match x with
  | S754_zero _ => true
  | _ => false
  end.

End F64.

Declare Scope f64_scope.
Delimit Scope f64_scope with f64.
Infix "+" := F64.add : f64_scope.
Infix "-" := F64.sub : f64_scope.
Infix "*" := F64.mul : f64_scope.
Infix "/" := F64.div : f64_scope.

(** ** Python exceptions and fallible results *)

Inductive exn : Type :=
| IndexError
| ValueError
| OtherError (msg : string).

Inductive result (A : Type) : Type :=
| Ok (a : A)
| Raise (e : exn).

Arguments Ok {A} a.
Arguments Raise {A} e.

Definition bind {A B : Type} (r : result A) (k : A -> result B) : result B :=
  match r with
  | Ok a => k a
  | Raise e => Raise e
  end.

Notation "x <- r ;; k" := (bind r (fun x => k))
  (at level 61, r at next level, right associativity).

Definition raises {A : Type} (r : result A) : bool :=
  match r with
  | Ok _ => false
  | Raise _ => true
  end.

(** ** NumPy arrays

    A one-dimensional array is a list, a two-dimensional array the list of
    its rows (row index first, as in [U[i, j]]).  A point or velocity
    [(x, y)] is a pair. *)

Definition array1 : Type := list float.
Definition array2 : Type := list (list float).
Definition point : Type := (float * float)%type.

(** [X[0, :]]: the first row; NumPy raises [IndexError] without one. *)
Definition row0 (X : array2) : result array1 :=
  match X with
  | [] => Raise IndexError
  | r :: _ => Ok r
  end.

(** [Y[:, 0]]: the first entry of every row; [IndexError] when the rows
    are empty. *)
Fixpoint col0 (Y : array2) : result array1 :=
  match Y with
  | [] => Ok []
  | r :: Y' =>
      match r with
      | [] => Raise IndexError
      | a :: _ => c <- col0 Y' ;; Ok (a :: c)
      end
  end.

(** The same column, from the first entries alone. *)
Fixpoint gather (l : list (option float)) : result array1 :=
  match l with
  | [] => Ok []
  | None :: _ => Raise IndexError
  | Some a :: l' => c <- gather l' ;; Ok (a :: c)
  end.

(** Element-wise operations on two-dimensional arrays of one shape. *)
Fixpoint zip_with {A B C : Type} (f : A -> B -> C) (l : list A) (l' : list B)
  : list C :=
  match l, l' with
  | a :: l, b :: l' => f a b :: zip_with f l l'
  | _, _ => []
  end.

Definition map2d (f : float -> float) (A : array2) : array2 :=
  map (map f) A.

Definition zip2d (f : float -> float -> float) (A B : array2) : array2 :=
  zip_with (zip_with f) A B.

(** [np.sqrt(U**2 + V**2)]: the speed at every lattice point. *)
Definition speed_of (U V : array2) : array2 :=
  map2d F64.sqrt
    (zip2d F64.add (map2d (fun u => (u * u)%f64) U)
                   (map2d (fun v => (v * v)%f64) V)).

(** Indexing inside an interpolator.  The constructor checks that the
    value array has the shape of the grid, and the evaluation below only
    uses entries that exist in such an array when no axis is empty; the
    default reaches no result then. *)
Definition at1 (g : array1) (i : nat) : float := nth i g F64.nan.
Definition at2 (A : array2) (i j : nat) : float := nth j (nth i A []) F64.nan.

(** ** [scipy.interpolate.RegularGridInterpolator]

    The library class as [streamline] uses it: two axes, the default
    [method="linear"], [bounds_error=False] and [fill_value=None], with
    which, in the library's words, values outside the domain are
    extrapolated.  The constructor validates the axes and the shape; a call
    locates the cell of the query on each axis (the edge cell for a query
    beyond the axis), and combines the four corners of the cell with the
    normalised distances as weights.  An axis with a single coordinate
    is special-cased by the library: the value does not depend on the
    coordinate along it, and the interpolation runs along the other axis.

    The value arrays are float64 arrays that own their data, for which the
    library takes its compiled two-dimensional path; [evaluate_linear] and
    [call] follow the order of operations of that path.  (For arrays of
    another type, or read-only ones, the library multiplies the weights of
    a corner together before the value, which can change the last bit of
    the result.) *)

Module RGI.

(** [np.all(p[1:] > p[:-1])] and [np.all(p[1:] < p[:-1])]. *)
Fixpoint strictly_ascending (p : array1) : bool :=
  match p with
  | a :: (b :: _) as tl => F64.ltb a b && strictly_ascending tl
  | _ => true
  end.

Fixpoint strictly_descending (p : array1) : bool :=
  match p with
  | a :: (b :: _) as tl => F64.ltb b a && strictly_descending tl
  | _ => true
  end.

(** An axis is stored ascending; a descending one is flipped, and so is
    the value array along it. *)
Definition check_points (p : array1) : result (array1 * bool) :=
  if strictly_ascending p then Ok (p, false)
  else if strictly_descending p then Ok (rev p, true)
  else Raise ValueError.

(** [values.shape[i] == len(points[i])] on both axes. *)
Definition check_dimensionality (py px : array1) (values : array2) : bool :=
  Nat.eqb (length values) (length py)
  && forallb (fun r => Nat.eqb (length r) (length px)) values.

Record t : Type := mk {
  grid_y : array1;
  grid_x : array1;
  values : array2
}.

Definition flip_rows (b : bool) (A : array2) : array2 :=
  if b then rev A else A.

Definition flip_cols (b : bool) (A : array2) : array2 :=
  if b then map (@rev float) A else A.

(** [RegularGridInterpolator((py, px), values, bounds_error=False,
    fill_value=None)]. *)
Definition make (py px : array1) (vals : array2) : result t :=
  gy <- check_points py ;;
  gx <- check_points px ;;
  if check_dimensionality py px vals
  then Ok (mk (fst gy) (fst gx) (flip_cols (snd gx) (flip_rows (snd gy) vals)))
  else Raise ValueError.

(** The cell of [x] on an ascending axis: the first [i] with
    [x < g[i+1]], and the last cell when there is none. *)
Fixpoint find_interval (g : array1) (x : float) : nat :=
  match g with
  | _ :: ((b :: (_ :: _)) as tl) =>
      if F64.ltb x b then O else S (find_interval tl x)
  | _ => O
  end.

(** The distance of [x] to the lower edge of cell [i], in units of the
    cell width; below 0 or above 1 when [x] lies beyond the axis. *)
Definition norm_distance (g : array1) (i : nat) (x : float) : float :=
  ((x - at1 g i) / (at1 g (S i) - at1 g i))%f64.

(** The weighted sum over the corners of cell [(i0, i1)]. *)
Definition evaluate_linear (v : array2) (i0 i1 : nat) (y0 y1 : float)
  : float :=
  let w0 := (F64.one - y0)%f64 in
  let w1 := (F64.one - y1)%f64 in
  (F64.zero
   + at2 v i0 i1 * w0 * w1
   + at2 v i0 (S i1) * w0 * y1
   + at2 v (S i0) i1 * y0 * w1
   + at2 v (S i0) (S i1) * y0 * y1)%f64.

(** Interpolation along one axis, between two lattice values. *)
Definition evaluate_along (a b : float) (w : float) : float :=
  (a * (F64.one - w) + b * w)%f64.

Definition one_point (g : array1) : bool := Nat.eqb (length g) 1.

(** [interp((y, x))]: a NaN coordinate gives NaN.  With a single
    coordinate on the x axis the first column is interpolated along y, with
    a single one on the y axis the first row along x; the compiled path
    finds no cell, and gives NaN, when both axes have a single
    coordinate. *)
Definition call (f : t) (yx : float * float) : float :=
  let '(y, x) := yx in
  if F64.isnan y || F64.isnan x then F64.nan
  else
    let i0 := find_interval (grid_y f) y in
    let i1 := find_interval (grid_x f) x in
    let y0 := norm_distance (grid_y f) i0 y in
    let y1 := norm_distance (grid_x f) i1 x in
    if one_point (grid_x f) then
      if one_point (grid_y f) then F64.nan
      else evaluate_along (at2 (values f) i0 0) (at2 (values f) (S i0) 0) y0
    else if one_point (grid_y f) then
      evaluate_along (at2 (values f) 0 i1) (at2 (values f) 0 (S i1)) y1
    else evaluate_linear (values f) i0 i1 y0 y1.




End RGI.

(** ** [np.linspace(start, stop, num)]

    [num] evenly spaced samples with both ends included: a negative [num]
    is rejected; the step is [(stop - start) / (num - 1)]; the last sample
    is set to [stop] itself when there are at least two. *)

Fixpoint set_last (l : array1) (v : float) : array1 :=
  match l with
  | [] => []
  | [_] => [v]
  | a :: l' => a :: set_last l' v
  end.

Definition arange (num : Z) : array1 :=
  map (fun k => F64.of_Z (Z.of_nat k)) (seq 0 (Z.to_nat num)).

Definition linspace (start stop : float) (num : Z) : result array1 :=
  if num <? 0 then Raise ValueError
  else
    let div := num - 1 in
    let delta := (stop - start)%f64 in
    let y := arange num in
    let y :=
      if 0 <? div then
        let step := (delta / F64.of_Z div)%f64 in
        if F64.eqb step F64.zero
        then map (fun i => (i / F64.of_Z div * delta)%f64) y
        else map (fun i => (i * step)%f64) y
      else map (fun i => (i * delta)%f64) y in
    let y := map (fun v => (v + start)%f64) y in
    Ok (if 1 <? num then set_last y stop else y).

(** ** The solver interface

    [scipy.integrate.solve_ivp(fun, t_span, y0, method=..., t_eval=...)]
    is not part of this repository: it is a parameter of the development.
    It receives the right-hand side, the time span, the initial state, the
    method name and the requested sample times, and either raises or
    returns the array [sol.y], one row per state component and one column
    per sample it produced. *)

Definition rhs : Type := float -> point -> point.

Definition solver : Type :=
  rhs -> float * float -> point -> string -> array1 -> result array2.

(** [a[i]] on the first axis. *)
Definition index_row (A : array2) (i : nat) : result array1 :=
  match nth_error A i with
  | Some r => Ok r
  | None => Raise IndexError
  end.

(** [np.column_stack((a, b))] for two one-dimensional arrays. *)
Definition column_stack (a b : array1) : result (list point) :=
  if Nat.eqb (length a) (length b) then Ok (combine a b)
  else Raise ValueError.

(** ** The source function *)

(** The nested [velocity_field(t, xy)], closed over the two interpolators
    and the normalizer.  The list [[0, 0]] reaches the solver as two
    floats. *)
Definition velocity_field (U_interp V_interp : RGI.t)
    (normalizer : float * float -> float) : rhs :=
  fun t xy =>
    let '(x, y) := xy in
    let u := (RGI.call U_interp (y, x) / normalizer (y, x))%f64 in
    let v := (RGI.call V_interp (y, x) / normalizer (y, x))%f64 in
    if F64.isfinite u && F64.isfinite v then (u, v)
    else (F64.zero, F64.zero).

(** Lines 24 to 35 of the source: the interpolators and the closure. *)
Definition make_velocity_field (X Y U V : array2) (normalize_velocity : bool)
  : result rhs :=
  gy <- col0 Y ;;
  gx <- row0 X ;;
  U_interp <- RGI.make gy gx U ;;
  V_interp <- RGI.make gy gx V ;;
  normalizer <-
    (if normalize_velocity
     then n <- RGI.make gy gx (speed_of U V) ;; Ok (RGI.call n)
     else Ok (fun _ : float * float => F64.one)) ;;
  Ok (velocity_field U_interp V_interp normalizer).

(** [np.column_stack((sol.y[0], sol.y[1]))]. *)
Definition points_of (sol_y : array2) : result (list point) :=
  xs <- index_row sol_y 0 ;;
  ys <- index_row sol_y 1 ;;
  column_stack xs ys.

Section Streamline.

Variable solve_ivp : solver.

Definition streamline (X Y U V : array2) (start_point : point)
    (t_max : float) (max_points : Z) (method : string)
    (normalize_velocity : bool) : result (list point) :=
  velocity <- make_velocity_field X Y U V normalize_velocity ;;
  t_eval_fwd <- linspace F64.zero t_max max_points ;;
  t_eval_bwd <- linspace F64.zero (F64.opp t_max) max_points ;;
  sol_fwd <- solve_ivp velocity (F64.zero, t_max) start_point method
               t_eval_fwd ;;
  fwd_points <- points_of sol_fwd ;;
  sol_bwd <- solve_ivp velocity (F64.zero, F64.opp t_max) start_point method
               t_eval_bwd ;;
  bwd_points <- points_of sol_bwd ;;
  Ok (rev bwd_points ++ tl fwd_points).

(** A directed run is complete when the solver returns a two-row
    [sol.y] with one column per requested sample time. *)
Definition complete_run (velocity : rhs) (t_end : float)
    (start_point : point) (method : string) (max_points : Z) : Prop :=
  forall t_eval, linspace F64.zero t_end max_points = Ok t_eval ->
  exists xs ys,
    solve_ivp velocity (F64.zero, t_end) start_point method t_eval
      = Ok [xs; ys]
    /\ length xs = length t_eval /\ length ys = length t_eval.

End Streamline.

(** One directed run of [streamline]: the sample times, the solver call
    and the two rows of [sol.y] stacked as points. *)
Definition directed_run (solve_ivp : solver) (velocity : rhs) (t_end : float)
    (start_point : point) (method : string) (max_points : Z)
  : result (list point) :=
  t_eval <- linspace F64.zero t_end max_points ;;
  sol <- solve_ivp velocity (F64.zero, t_end) start_point method t_eval ;;
  points_of sol.

(** A [sol.y] that [np.column_stack((sol.y[0], sol.y[1]))] accepts. *)
Definition two_rows (sol_y : array2) : Prop :=
  exists xs ys,
    nth_error sol_y 0 = Some xs /\ nth_error sol_y 1 = Some ys
    /\ length xs = length ys.

(** ** A reference stepper

    An explicit Euler walk through the requested times, one step per
    sample, which leaves the state untouched where the derivative
    vanishes.  It instantiates the solver interface in the examples. *)

Definition euler_step (f : rhs) (t h : float) (p : point) : point :=
  let v := f t p in
  if F64.is_zero (fst v) && F64.is_zero (snd v) then p
  else ((fst p + h * fst v)%f64, (snd p + h * snd v)%f64).

Fixpoint euler_walk (f : rhs) (t : float) (p : point) (ts : array1)
  : list point :=
  match ts with
  | [] => []
  | t' :: ts' =>
      let p' := euler_step f t (t' - t)%f64 p in
      p' :: euler_walk f t' p' ts'
  end.

Definition euler_ivp : solver :=
  fun f span p _ ts =>
    let pts := euler_walk f (fst span) p ts in
    Ok [map fst pts; map snd pts].

(** ** A stepper that can fail

    [solve_ivp] does not raise when a step fails: it returns, with
    [status = -1], the samples it had produced by then, and [sol.y] is an
    empty list when it produced none.  [streamline] does not look at
    [sol.status].  The stepper below does the same: [failed] tells the
    requested times the integration cannot reach; it walks like the
    reference stepper, ends the run at the first such time, and returns the
    samples before it. *)

Fixpoint euler_until (failed : float -> bool) (f : rhs) (t : float)
    (p : point) (ts : array1) : list point :=
  match ts with
  | [] => []
  | t' :: ts' =>
      if failed t' then []
      else
        let p' := euler_step f t (t' - t)%f64 p in
        p' :: euler_until failed f t' p' ts'
  end.

Definition sol_y_of (pts : list point) : array2 :=
  match pts with
  | [] => []
  | _ :: _ => [map fst pts; map snd pts]
  end.

Definition failing_ivp (failed : float -> bool) : solver :=
  fun f span p _ ts =>
    Ok (sol_y_of (euler_until failed f (fst span) p ts)).

(** ** Sample data *)

Module Sample.

Definition z (n : Z) : float := F64.of_Z n.

(** [np.meshgrid(xs, ys)]. *)
Definition meshgrid (xs ys : list Z) : array2 * array2 :=
  (map (fun _ => map z xs) ys, map (fun y => map (fun _ => z y) xs) ys).

Definition full (xs ys : list Z) (c : float) : array2 :=
  map (fun _ => map (fun _ => c) xs) ys.

Definition axis : list Z := [0; 1; 2; 3; 4].
Definition X : array2 := fst (meshgrid axis axis).
Definition Y : array2 := snd (meshgrid axis axis).

(** The uniform field [U = 1, V = 0] and the zero field. *)
Definition ones : array2 := full axis axis (z 1).
Definition zeros : array2 := full axis axis (z 0).

Definition half : float := (z 1 / z 2)%f64.

(** The trajectory of the uniform field through [(2, 2)] over one time
    unit, three samples per direction. *)
Definition uniform_trajectory : list point :=
  [(z 1, z 2); ((z 3 / z 2)%f64, z 2); (z 2, z 2);
   ((z 5 / z 2)%f64, z 2); (z 3, z 2)].

(** Meshgrids that keep only the first row of [X] and the first column
    of [Y]. *)
Definition X_scrambled : array2 :=
  hd [] X :: map (map (fun _ => F64.nan)) (tl X).
Definition Y_scrambled : array2 :=
  map (fun r => hd F64.nan r :: map (fun _ => z 7) (tl r)) Y.


(** The uniform field with one lattice value masked. *)
Definition masked : array2 :=
  [[z 1; z 1; z 1; z 1; z 1];
   [z 1; z 1; z 1; z 1; z 1];
   [z 1; z 1; z 1; F64.nan; z 1];
   [z 1; z 1; z 1; z 1; z 1];
   [z 1; z 1; z 1; z 1; z 1]].

(** [U = -x / 4]: positions decay towards [x = 0] forward in time and
    grow without bound backward in time. *)
Definition decaying : array2 :=
  map (fun _ => map (fun x => (z (- x) / z 4)%f64) axis) axis.

(** [U = V = -x * y].  Through [(2, 2)] the exact solution is
    [x = y = 1 / (t + 1/2)]: it decays forward in time and has no value at
    [t = -1/2] or before. *)
Definition singular : array2 :=
  map (fun y => map (fun x => z (- (x * y))) axis) axis.

Definition before_singularity (t : float) : bool :=
  F64.leb t (F64.opp half).

End Sample.

(** ** Predicates used in the statements *)

(** A velocity with both components zero, of either sign. *)
Definition zero_vec (v : point) : bool :=
  F64.is_zero (fst v) && F64.is_zero (snd v).

(** Zero or NaN: what sums of products with zero lattice values can be. *)
Definition zn (x : float) : bool := F64.is_zero x || F64.isnan x.

(** A lattice holding zero everywhere. *)
Definition all_zero (A : array2) : Prop :=
  Forall (Forall (fun v => F64.is_zero v = true)) A.

(** A solver keeps a state at rest when, for a right-hand side that
    vanishes everywhere, every sample it returns is the initial state. *)
Definition keeps_rest (solve : solver) : Prop :=
  forall (f : rhs) span p m ts sol pts,
    (forall t q, zero_vec (f t q) = true) ->
    solve f span p m ts = Ok sol ->
    points_of sol = Ok pts ->
    Forall (eq p) pts.

(** A state where the derivative is zero at all times. *)
Definition at_rest (f : rhs) (q : point) : Prop :=
  forall t, zero_vec (f t q) = true.


(** The lattice indices a call reads for a query: the four corners of
    its cell, or the two ends of its interval on the only row or column
    when the other axis has a single coordinate. *)
Definition corners (gy gx : array1) (y x : float) : list (nat * nat) :=
  let i0 := RGI.find_interval gy y in
  let i1 := RGI.find_interval gx x in
  if RGI.one_point gx then
    if RGI.one_point gy then [(O, O)] else [(i0, O); (S i0, O)]
  else if RGI.one_point gy then [(O, i1); (O, S i1)]
  else [(i0, i1); (i0, S i1); (S i0, i1); (S i0, S i1)].

(** The entry [(i, j)] of an array, when the array has one. *)
Definition entry {A : Type} (M : list (list A)) (i j : nat) : option A :=
  match nth_error M i with
  | Some r => nth_error r j
  | None => None
  end.

Definition holds_at {A : Type} (P : A -> bool) (M : list (list A))
    (ij : nat * nat) : bool :=
  match entry M (fst ij) (snd ij) with
  | Some a => P a
  | None => false
  end.

(** One of the lattice values around the query is NaN: an entry of the
    value array itself, at one of the indices the call reads. *)
Definition nan_corner (f : RGI.t) (y x : float) : bool :=
  existsb (holds_at F64.isnan (RGI.values f))
    (corners (RGI.grid_y f) (RGI.grid_x f) y x).

(** ** The domain of a grid and the spec's reading of the sampler *)

Definition first_coord (g : array1) : float := at1 g 0.
Definition last_coord (g : array1) : float := last g F64.nan.



(** ** Well-formed fields

    The coordinate vectors exist and are strictly monotonic, and both
    component arrays have the shape of the grid. *)

Definition monotonic (p : array1) : bool :=
  RGI.strictly_ascending p || RGI.strictly_descending p.

Definition has_shape (A : array2) (rows cols : nat) : bool :=
  Nat.eqb (length A) rows && forallb (fun r => Nat.eqb (length r) cols) A.

Definition well_formed (X Y U V : array2) : bool :=
  match col0 Y, row0 X with
  | Ok gy, Ok gx =>
      monotonic gy && monotonic gx
      && has_shape U (length gy) (length gx)
      && has_shape V (length gy) (length gx)
  | _, _ => false
  end.

(** The same in the words of the interface: coordinates that increase, or
    decrease, from every entry to every later one (so that none repeats),
    and component arrays with one row per y coordinate and one entry per x
    coordinate in every row. *)
Definition increasing (p : array1) : Prop :=
  forall i j a b, (i < j)%nat ->
    nth_error p i = Some a -> nth_error p j = Some b -> F64.ltb a b = true.

Definition decreasing (p : array1) : Prop :=
  forall i j a b, (i < j)%nat ->
    nth_error p i = Some a -> nth_error p j = Some b -> F64.ltb b a = true.

Definition grid_shaped (A : array2) (gy gx : array1) : Prop :=
  length A = length gy /\ Forall (fun r => length r = length gx) A.

Definition WellFormedField (X Y U V : array2) : Prop :=
  exists gy gx,
    col0 Y = Ok gy /\ row0 X = Ok gx
    /\ (increasing gy \/ decreasing gy)
    /\ (increasing gx \/ decreasing gx)
    /\ grid_shaped U gy gx /\ grid_shaped V gy gx.

(** * The inspection tool: [src/catchment_inspector.py]

    [inspect_basin] masks the velocity data of one basin, crops it to the
    bounding box of the mask and traces a streamline through the saved
    starting point.  Reading the datasets, the point-in-polygon test and
    the plotting are library calls outside the embedding: the data arrive
    as arrays, and the polygon mask as an array of booleans. *)

(** ** Masks *)

Definition mask2 : Type := list (list bool).

(** [speed_subset > speed_threshold], entry by entry. *)
Definition gt_mask (A : array2) (threshold : float) : mask2 :=
  map (map (fun v => F64.ltb threshold v)) A.

(** [mask_polygon & mask_speed], for two masks of one shape. *)
Definition and_mask (A B : mask2) : mask2 := zip_with (zip_with andb) A B.

(** [np.any(mask)], [np.any(mask, axis=1)] and [np.any(mask, axis=0)]. *)
Definition any2 (m : mask2) : bool := existsb (existsb (fun b => b)) m.

Definition any_rows (m : mask2) : list bool :=
  map (existsb (fun b => b)) m.

Definition any_cols (m : mask2) : list bool :=
  map (fun j => existsb (fun r => nth j r false) m)
      (seq 0 (length (hd [] m))).

(** [np.where(v)[0]]: the indices of the true entries, in order. *)
Definition where1 (v : list bool) : list nat :=
  filter (fun i => nth i v false) (seq 0 (length v)).

(** [idx[[0, -1]]]: the first and the last entry; none in an empty
    array. *)
Definition first_last (idx : list nat) : result (nat * nat) :=
  match idx with
  | [] => Raise IndexError
  | a :: _ => Ok (a, last idx a)
  end.

(** [a[i]] on a one-dimensional array. *)
Definition index1 (a : array1) (i : nat) : result float :=
  match nth_error a i with
  | Some v => Ok v
  | None => Raise IndexError
  end.

(** [a[lo:hi]] for indices that are not negative. *)
Definition slice {A : Type} (lo hi : nat) (l : list A) : list A :=
  firstn (hi - lo) (skipn lo l).

(** [A[i0:i1, j0:j1]]. *)
Definition crop2 {A : Type} (i0 i1 j0 j1 : nat) (M : list (list A))
  : list (list A) :=
  map (slice j0 j1) (slice i0 i1 M).

(** [np.where(mask, A, np.nan)], for a mask of the shape of [A]. *)
Definition where2 (m : mask2) (A : array2) : array2 :=
  zip_with (zip_with (fun (b : bool) v => if b then v else F64.nan)) m A.

(** [np.nanmax(A)]: the largest entry that is not NaN, NaN when all are,
    and [ValueError] on an array without entries. *)
Definition fmax (a b : float) : float :=
  if F64.isnan a then b
  else if F64.isnan b then a
  else if F64.ltb a b then b else a.

Definition nanmax (A : array2) : result float :=
  match concat A with
  | [] => Raise ValueError
  | v :: l => Ok (fold_left fmax l v)
  end.

(** [np.meshgrid(xs, ys)]. *)
Definition meshgrid (xs ys : array1) : array2 * array2 :=
  (map (fun _ => xs) ys, map (fun y => map (fun _ => y) xs) ys).

(** The entry [mask[i, j]], false outside the array, and the shape of an
    array of any entries. *)
Definition cell (m : mask2) (i j : nat) : bool := nth j (nth i m []) false.

Definition shaped {A : Type} (M : list (list A)) (rows cols : nat) : bool :=
  Nat.eqb (length M) rows && forallb (fun r => Nat.eqb (length r) cols) M.

(** One of the lattice points around the query lies outside the mask: an
    entry of the mask itself, at one of the indices the interpolator
    reads. *)
Definition unmasked_corner (m : mask2) (gy gx : array1) (y x : float)
  : bool :=
  existsb (holds_at negb m) (corners gy gx y x).

(** ** [inspect_basin], up to its first streamline *)

(** The data of one basin after the selection by the polygon's bounds
    (lines 61 to 77). *)
Record basin : Type := mk_basin {
  x_subset : array1;
  y_subset : array1;
  u_subset : array2;
  v_subset : array2;
  speed_subset : array2;
  mask_polygon : mask2;
  centroid : point
}.

(** What lines 78 to 120 hand to the plot and to [streamline]. *)
Record prepared : Type := mk_prepared {
  extent : float * float * float * float;
  vmax : float;
  speed_masked : array2;
  mesh_X : array2;
  mesh_Y : array2;
  u_stream : array2;
  v_stream : array2
}.

(** Lines 81, 89 and 90: the mask and the first and last masked row and
    column. *)
Definition basin_mask (b : basin) (speed_threshold : float) : mask2 :=
  and_mask (mask_polygon b) (gt_mask (speed_subset b) speed_threshold).

Definition mask_bounds (mask : mask2) : result (nat * nat * (nat * nat)) :=
  i_bounds <- first_last (where1 (any_rows mask)) ;;
  j_bounds <- first_last (where1 (any_cols mask)) ;;
  Ok (i_bounds, j_bounds).

(** Lines 78 to 120.  [None] is the early return of line 86. *)
Definition inspect_basin_prepare (b : basin) (speed_threshold : float)
  : result (option prepared) :=
  let mask := basin_mask b speed_threshold in
  if negb (any2 mask) then Ok None
  else
    bounds <- mask_bounds mask ;;
    let '((i0, i1), (j0, j1)) := bounds in
    e0 <- index1 (x_subset b) j0 ;;
    e1 <- index1 (x_subset b) j1 ;;
    e2 <- index1 (y_subset b) i0 ;;
    e3 <- index1 (y_subset b) i1 ;;
    let u := crop2 i0 i1 j0 j1 (u_subset b) in
    let v := crop2 i0 i1 j0 j1 (v_subset b) in
    let speed := crop2 i0 i1 j0 j1 (speed_subset b) in
    let mask := crop2 i0 i1 j0 j1 mask in
    let xs := slice j0 j1 (x_subset b) in
    let ys := slice i0 i1 (y_subset b) in
    let speed_masked := where2 mask speed in
    top <- nanmax speed_masked ;;
    let '(X, Y) := meshgrid xs ys in
    Ok (Some (mk_prepared (e0, e1, e2, e3) top speed_masked X Y
                (where2 mask u) (where2 mask v))).

(** The arrays of a basin agree in shape: [rows] coordinates in
    [y_subset], [cols] in [x_subset], and [rows] x [cols] entries in each
    array. *)
Definition consistent (b : basin) (rows cols : nat) : bool :=
  Nat.eqb (length (y_subset b)) rows
  && Nat.eqb (length (x_subset b)) cols
  && shaped (u_subset b) rows cols
  && shaped (v_subset b) rows cols
  && shaped (speed_subset b) rows cols
  && shaped (mask_polygon b) rows cols.

(** Lines 124 and 125: the saved point, or the centroid when its first
    coordinate is NaN. *)
Definition start_of (b : basin) (starting_point : point) : point :=
  if F64.isnan (fst starting_point) then centroid b else starting_point.

(** Line 130: the streamline through the starting point, with
    [t_max=1000000] and the defaults of [streamline]. *)
Definition inspect_basin_streamline (solve_ivp : solver) (b : basin)
    (starting_point : point) (speed_threshold : float)
  : result (option (list point)) :=
  p <- inspect_basin_prepare b speed_threshold ;;
  match p with
  | None => Ok None
  | Some d =>
      sl <- streamline solve_ivp (mesh_X d) (mesh_Y d) (u_stream d)
              (v_stream d) (start_of b starting_point)
              (F64.of_Z 1000000) 10000 "LSODA" false ;;
      Ok (Some sl)
  end.

(** Lines 57 to 169.  [show] stands for the interactive session of lines
    134 to 168: from the starting point it plots, it returns the point the
    user chose last, or raises. *)
Definition inspect_basin (solve_ivp : solver) (show : point -> result point)
    (b : basin) (starting_point : point) (speed_threshold : float)
  : result point :=
  r <- inspect_basin_streamline solve_ivp b starting_point speed_threshold ;;
  match r with
  | None => Ok (F64.nan, F64.nan)
  | Some _ => show (start_of b starting_point)
  end.

(** ** The main loop (lines 180 to 187)

    The saved starting points are an N x 2 array, one row per basin, kept
    in the save file.  A file this program wrote holds rows of two
    numbers; [np.genfromtxt] squeezes what it reads, so a single row comes
    back as a one-dimensional array.  [inspect_basin] is interactive: it
    is a parameter here, a function of the basin's index and its saved
    point that returns the new point or raises. *)

Inductive ndarray : Type :=
| Arr1 (a : array1)
| Arr2 (rows : list point).

(** [np.genfromtxt(save_file, delimiter=',', skip_header=1)]. *)
Definition genfromtxt (rows : list point) : ndarray :=
  match rows with
  | [] => Arr1 []
  | [r] => Arr1 [fst r; snd r]
  | _ => Arr2 rows
  end.

(** [np.full((n, 2), np.nan)]. *)
Definition full_nan (n : nat) : ndarray := Arr2 (repeat (F64.nan, F64.nan) n).

(** [points[i, :]]: a row, of a two-dimensional array only. *)
Definition get_row (points : ndarray) (i : nat) : result point :=
  match points with
  | Arr1 _ => Raise IndexError
  | Arr2 rows =>
      match nth_error rows i with
      | Some r => Ok r
      | None => Raise IndexError
      end
  end.

(** [points[i, :] = p], for a row that exists. *)
Fixpoint set_nth (i : nat) (p : point) (rows : list point) : list point :=
  match rows, i with
  | [], _ => []
  | _ :: rows', O => p :: rows'
  | r :: rows', S i' => r :: set_nth i' p rows'
  end.

(** The body of the loop for the basins [todo], from the current array and
    file.  The result is the final array, or the exception that ended the
    loop, with the file as the last [np.savetxt] left it. *)
Fixpoint run_basins (inspect_basin : nat -> point -> result point)
    (todo : list nat) (points : ndarray) (file : option (list point))
  : result ndarray * option (list point) :=
  match todo with
  | [] => (Ok points, file)
  | i :: todo' =>
      match get_row points i with
      | Raise e => (Raise e, file)
      | Ok row =>
          match inspect_basin i row with
          | Raise e => (Raise e, file)
          | Ok p =>
              match points with
              | Arr1 _ => (Raise IndexError, file)
              | Arr2 rows =>
                  let rows' := set_nth i p rows in
                  run_basins inspect_basin todo' (Arr2 rows') (Some rows')
              end
          end
      end
  end.

(** Lines 180 to 187: the array is read from the save file when there is
    one, and is all NaN otherwise. *)
Definition load_points (n_basins : nat) (file : option (list point))
  : ndarray :=
  match file with
  | Some rows => genfromtxt rows
  | None => full_nan n_basins
  end.

Definition main_loop (inspect_basin : nat -> point -> result point)
    (n_basins : nat) (file : option (list point))
  : result ndarray * option (list point) :=
  run_basins inspect_basin (seq 0 n_basins) (load_points n_basins file) file.

(** ** Settings (lines 24 to 42)

    A [ConfigParser] maps section names to options and options to strings;
    the section [DEFAULT] supplies the options a section lacks.  A settings
    file is given by the sections and options the parser reads from it;
    reading a file sets its options over those already present, and a file
    that does not exist is skipped.  A value is interpolated when it is
    fetched: [before_get] is the library's interpolation, a parameter. *)

Definition options : Type := list (string * string).
Definition settings : Type := list (string * options).

Fixpoint lookup {V : Type} (key : string) (l : list (string * V))
  : option V :=
  match l with
  | [] => None
  | (k, v) :: l' => if String.eqb k key then Some v else lookup key l'
  end.

Fixpoint update {V : Type} (key : string) (v : V) (l : list (string * V))
  : list (string * V) :=
  match l with
  | [] => [(key, v)]
  | (k, w) :: l' =>
      if String.eqb k key then (k, v) :: l' else (k, w) :: update key v l'
  end.

Definition section_of (cfg : settings) (name : string) : options :=
  match lookup name cfg with
  | Some o => o
  | None => []
  end.

Definition merge_options (new old : options) : options :=
  fold_left (fun acc kv => update (fst kv) (snd kv) acc) new old.

(** [config.read(path)] for a file with the content [file]. *)
Definition read_into (cfg : settings) (file : option settings) : settings :=
  match file with
  | None => cfg
  | Some secs =>
      fold_left
        (fun acc sec =>
           update (fst sec) (merge_options (snd sec) (section_of acc (fst sec)))
             acc)
        secs cfg
  end.

(** The two files the script reads. *)
Record files : Type := mk_files {
  default_ini : option settings;
  user_ini : option settings
}.

(** What lines 27 to 32 write when [settings.ini] does not exist. *)
Definition empty_paths : settings :=
  [("Paths", [("shapefile", ""); ("velocity_data", "")])]%string.

Section Settings.

Variable before_get : settings -> string -> string -> string -> result string.

(** [key not in config['Paths'] or not config['Paths'][key]] followed by
    the [raise ValueError]; otherwise the value.  [config['Paths']] raises
    [KeyError] without such a section. *)
Definition checked_path (cfg : settings) (key : string) : result string :=
  match lookup "Paths"%string cfg with
  | None => Raise (OtherError "KeyError")
  | Some sec =>
      let raw :=
        match lookup key sec with
        | Some v => Some v
        | None => lookup key (section_of cfg "DEFAULT"%string)
        end in
      match raw with
      | None => Raise ValueError
      | Some v =>
          value <- before_get cfg "Paths"%string key v ;;
          if String.eqb value ""%string then Raise ValueError else Ok value
      end
  end.

(** Lines 24 to 42: the paths of the shapefile and of the velocity data,
    or the exception, and the files as the script leaves them. *)
Definition startup (fs : files) : result (string * string) * files :=
  let created :=
    match user_ini fs with
    | None => true
    | Some _ => false
    end in
  let config := if created then empty_paths else [] in
  let fs' :=
    if created then mk_files (default_ini fs) (Some config) else fs in
  let config := read_into config (default_ini fs') in
  let config := read_into config (user_ini fs') in
  (shapefile <- checked_path config "shapefile"%string ;;
   velocity_data <- checked_path config "velocity_data"%string ;;
   Ok (shapefile, velocity_data),
   fs').

End Settings.

(** ** The orientation of the y axis (lines 48 to 50)

    The dataset holds its coordinate vectors and its variables, each with
    one row per entry of [y].  [reindex] along reversed labels reverses the
    rows with their labels; the library refuses an axis with duplicate
    labels. *)

Record dataset : Type := mk_dataset {
  ds_x : array1;
  ds_y : array1;
  ds_vars : list array2
}.

Definition same_label (a b : float) : bool :=
  F64.eqb a b || (F64.isnan a && F64.isnan b).

Fixpoint has_duplicates (l : array1) : bool :=
  match l with
  | [] => false
  | a :: l' => existsb (same_label a) l' || has_duplicates l'
  end.

(** [velocity_data.reindex(y=velocity_data.y[::-1])]. *)
Definition reindex_y_reversed (ds : dataset) : result dataset :=
  if has_duplicates (ds_y ds) then Raise ValueError
  else
    Ok (mk_dataset (ds_x ds) (rev (ds_y ds))
          (map (@rev array1) (ds_vars ds))).

(** Lines 49 and 50. *)
Definition flip_y (ds : dataset) : result dataset :=
  y0 <- index1 (ds_y ds) 0 ;;
  y1 <- index1 (ds_y ds) 1 ;;
  if F64.ltb y1 y0 then reindex_y_reversed ds else Ok ds.

(** ** A sample basin

    The 5 x 5 grid with the uniform field and unit speed; the polygon
    covers the 3 x 3 block in the middle. *)

Module SampleBasin.

Definition polygon : mask2 :=
  [[false; false; false; false; false];
   [false; true; true; true; false];
   [false; true; true; true; false];
   [false; true; true; true; false];
   [false; false; false; false; false]].

Definition data : basin :=
  mk_basin (map Sample.z Sample.axis) (map Sample.z Sample.axis)
    Sample.ones Sample.zeros Sample.ones polygon (Sample.z 2, Sample.z 2).

(** A polygon that covers entries of one row only. *)
Definition thin_polygon : mask2 :=
  [[false; false; false; false; false];
   [false; false; false; false; false];
   [false; true; true; true; false];
   [false; false; false; false; false];
   [false; false; false; false; false]].

Definition thin : basin :=
  mk_basin (map Sample.z Sample.axis) (map Sample.z Sample.axis)
    Sample.ones Sample.zeros Sample.ones thin_polygon
    (Sample.z 2, Sample.z 2).

(** A basin the polygon does not cover. *)
Definition outside : basin :=
  mk_basin (map Sample.z Sample.axis) (map Sample.z Sample.axis)
    Sample.ones Sample.zeros Sample.ones
    (map (map (fun _ => false)) polygon) (Sample.z 2, Sample.z 2).

End SampleBasin.

(** Sample runs of the main loop and sample files. *)

Module SampleRun.

Definition answer (i : nat) : point := (Sample.z (Z.of_nat i), Sample.z 0).

Definition inspect_all (i : nat) (saved : point) : result point :=
  Ok (answer i).

(** The user leaves the program at the third basin. *)
Definition inspect_two (i : nat) (saved : point) : result point :=
  if (i <? 2)%nat then Ok (answer i) else Raise (OtherError "SystemExit").

Definition no_interpolation (cfg : settings) (sec key v : string)
  : result string := Ok v.

Definition defaults_file : settings :=
  [("Paths", [("shapefile", "basins.shp"); ("save_file", "points.csv")]);
   ("Processing", [("speed_threshold", "0.5")])]%string.

Definition user_file : settings :=
  [("Paths", [("shapefile", "my.shp"); ("velocity_data", "v.nc")])]%string.

Definition descending : dataset :=
  mk_dataset (map Sample.z [0; 1]) (map Sample.z [2; 1; 0])
    [[[Sample.z 20; Sample.z 21]; [Sample.z 10; Sample.z 11];
      [Sample.z 0; Sample.z 1]]].

End SampleRun.

(** * Properties *)

(** ** Floating-point facts used below *)


Lemma nan_div (d : float) : (F64.nan / d)%f64 = F64.nan.
Proof. destruct d; reflexivity. Qed.

Lemma mul_nan_l (x : float) : (F64.nan * x)%f64 = F64.nan.
Proof. destruct x; reflexivity. Qed.

Lemma mul_nan_r (x : float) : (x * F64.nan)%f64 = F64.nan.
Proof. destruct x; reflexivity. Qed.

Lemma add_nan_l (x : float) : (F64.nan + x)%f64 = F64.nan.
Proof. destruct x; reflexivity. Qed.

Lemma add_nan_r (x : float) : (x + F64.nan)%f64 = F64.nan.
Proof. destruct x; reflexivity. Qed.

(** ** Inversion of the error monad *)

Lemma bind_Ok {A B : Type} (r : result A) (k : A -> result B) (b : B) :
  bind r k = Ok b -> exists a, r = Ok a /\ k a = Ok b.
Proof. destruct r as [a|e]; simpl; intros H; [eauto | discriminate]. Qed.

Lemma bind_Raise {A B : Type} (r : result A) (k : A -> result B) (e : exn) :
  r = Raise e -> bind r k = Raise e.
Proof. intros ->; reflexivity. Qed.

Ltac inv_bind H :=
  let a := fresh "a" in
  let E := fresh "E" in
  apply bind_Ok in H; destruct H as (a & E & H).

(** ** List facts for the assembly *)

Lemma nth_error_rev_last {A : Type} (l : list A) :
  nth_error (rev l) (length l - 1) = hd_error l.
Proof.
  destruct l as [|a l]; [reflexivity|].
  simpl. rewrite Nat.sub_0_r.
  rewrite nth_error_app2 by (rewrite length_rev; lia).
  rewrite length_rev, Nat.sub_diag. reflexivity.
Qed.

Lemma seed_index {A : Type} (bwd fwd : list A) (p : A) :
  hd_error bwd = Some p ->
  nth_error (rev bwd ++ tl fwd) (length bwd - 1) = Some p.
Proof.
  intros H. destruct bwd as [|a l]; [discriminate|].
  rewrite nth_error_app1 by (rewrite length_rev; simpl; lia).
  rewrite nth_error_rev_last. exact H.
Qed.



(** ** Sample times *)

Lemma set_last_length (l : array1) (v : float) :
  length (set_last l v) = length l.
Proof.
  induction l as [|a [|b l] IH]; simpl in *; congruence.
Qed.

Lemma arange_length (n : Z) : length (arange n) = Z.to_nat n.
Proof. unfold arange. now rewrite length_map, length_seq. Qed.

Lemma linspace_Ok (a b : float) (n : Z) :
  0 <= n -> exists ts, linspace a b n = Ok ts /\ length ts = Z.to_nat n.
Proof.
  intros Hn. unfold linspace.
  destruct (Z.ltb_spec n 0) as [Hlt|_]; [lia|].
  eexists; split; [reflexivity|].
  assert (Hy : forall y : array1, length y = Z.to_nat n ->
            length (if 1 <? n then set_last y b else y) = Z.to_nat n).
  { intros y Hy. destruct (1 <? n); [rewrite set_last_length|]; exact Hy. }
  apply Hy. rewrite length_map.
  destruct (0 <? n - 1); [destruct (F64.eqb _ _)|];
    rewrite length_map; apply arange_length.
Qed.

Lemma linspace_length (a b : float) (n : Z) (ts : array1) :
  linspace a b n = Ok ts -> length ts = Z.to_nat n.
Proof.
  intros H. destruct (Z.ltb_spec n 0) as [Hlt|Hge].
  - unfold linspace in H. apply Z.ltb_lt in Hlt. rewrite Hlt in H.
    discriminate.
  - destruct (linspace_Ok a b n Hge) as (ts' & E & L). congruence.
Qed.

Lemma linspace_negative (a b : float) (n : Z) :
  n < 0 -> linspace a b n = Raise ValueError.
Proof.
  intros H. unfold linspace. apply Z.ltb_lt in H. now rewrite H.
Qed.

(** ** The solver's array as points *)

Lemma points_of_two_rows (xs ys : array1) :
  length xs = length ys ->
  points_of [xs; ys] = Ok (combine xs ys).
Proof.
  intros H. unfold points_of, index_row, column_stack; simpl.
  now rewrite H, Nat.eqb_refl.
Qed.

Lemma combine_fst_snd {A B : Type} (l : list (A * B)) :
  combine (map fst l) (map snd l) = l.
Proof.
  induction l as [|[a b] l IH]; simpl; [reflexivity|]. now rewrite IH.
Qed.

(** ** The reference stepper answers every request *)



(** ** The reference stepper holds a stalled run *)





Section StreamlineFacts.

Variable solve_ivp : solver.

(** What a successful call went through, line by line. *)
Lemma streamline_inv X Y U V p t n m b pts :
  streamline solve_ivp X Y U V p t n m b = Ok pts ->
  exists velocity t_fwd t_bwd sol_fwd sol_bwd fwd bwd,
    make_velocity_field X Y U V b = Ok velocity
    /\ linspace F64.zero t n = Ok t_fwd
    /\ linspace F64.zero (F64.opp t) n = Ok t_bwd
    /\ solve_ivp velocity (F64.zero, t) p m t_fwd = Ok sol_fwd
    /\ points_of sol_fwd = Ok fwd
    /\ solve_ivp velocity (F64.zero, F64.opp t) p m t_bwd = Ok sol_bwd
    /\ points_of sol_bwd = Ok bwd
    /\ pts = rev bwd ++ tl fwd.
Proof.
  unfold streamline; intros H.
  inv_bind H. inv_bind H. inv_bind H. inv_bind H. inv_bind H.
  inv_bind H. inv_bind H.
  injection H as <-.
  repeat eexists; eauto.
Qed.

(** C2 (amended). A returned trajectory is the backward run reversed,
    followed by the forward run without its first point.  The first sample
    of the backward run, the state the solver reports at [t = 0], sits at
    index [len(bwd) - 1] of the result; that index is [max_points - 1], and
    the point there is the seed, when the backward run has [max_points]
    points and starts at the seed. *)
Theorem streamline_assembly X Y U V p t n m b pts :
  streamline solve_ivp X Y U V p t n m b = Ok pts ->
  exists velocity t_fwd t_bwd sol_fwd sol_bwd fwd bwd,
    make_velocity_field X Y U V b = Ok velocity
    /\ linspace F64.zero t n = Ok t_fwd
    /\ linspace F64.zero (F64.opp t) n = Ok t_bwd
    /\ solve_ivp velocity (F64.zero, t) p m t_fwd = Ok sol_fwd
    /\ points_of sol_fwd = Ok fwd
    /\ solve_ivp velocity (F64.zero, F64.opp t) p m t_bwd = Ok sol_bwd
    /\ points_of sol_bwd = Ok bwd
    /\ pts = rev bwd ++ tl fwd
    /\ (forall q, hd_error bwd = Some q ->
        nth_error pts (length bwd - 1) = Some q)
    /\ (Z.of_nat (length bwd) = n -> hd_error bwd = Some p ->
        nth_error pts (Z.to_nat (n - 1)) = Some p).
Proof.
  intros H.
  destruct (streamline_inv _ _ _ _ _ _ _ _ _ _ H)
    as (vf & tf & tb & sf & sb & fwd & bwd & H1 & H2 & H3 & H4 & H5 & H6
        & H7 & ->).
  exists vf, tf, tb, sf, sb, fwd, bwd.
  repeat (split; [assumption|]).
  split; [reflexivity|].
  split.
  - intros q Hq. now apply seed_index.
  - intros Hlen Hhd.
    replace (Z.to_nat (n - 1)) with (length bwd - 1)%nat by lia.
    apply seed_index; assumption.
Qed.

(** A call whose two runs are complete returns what the two solver calls
    produced, with [max_points] points from each run. *)
Lemma complete_runs_inv X Y U V p t n m b velocity :
  0 <= n ->
  make_velocity_field X Y U V b = Ok velocity ->
  complete_run solve_ivp velocity t p m n ->
  complete_run solve_ivp velocity (F64.opp t) p m n ->
  exists t_fwd t_bwd sol_fwd sol_bwd fwd bwd,
    solve_ivp velocity (F64.zero, t) p m t_fwd = Ok sol_fwd
    /\ points_of sol_fwd = Ok fwd
    /\ solve_ivp velocity (F64.zero, F64.opp t) p m t_bwd = Ok sol_bwd
    /\ points_of sol_bwd = Ok bwd
    /\ streamline solve_ivp X Y U V p t n m b = Ok (rev bwd ++ tl fwd)
    /\ length fwd = Z.to_nat n /\ length bwd = Z.to_nat n.
Proof.
  intros Hn Hv Hf Hb.
  destruct (linspace_Ok F64.zero t n) as (tf & Etf & Ltf); [lia|].
  destruct (linspace_Ok F64.zero (F64.opp t) n) as (tb & Etb & Ltb); [lia|].
  destruct (Hf tf Etf) as (xs & ys & Ef & Lxs & Lys).
  destruct (Hb tb Etb) as (xs' & ys' & Eb & Lxs' & Lys').
  exists tf, tb, [xs; ys], [xs'; ys'], (combine xs ys), (combine xs' ys').
  split; [exact Ef|].
  split; [apply points_of_two_rows; congruence|].
  split; [exact Eb|].
  split; [apply points_of_two_rows; congruence|].
  split.
  - unfold streamline. rewrite Hv, Etf, Etb. simpl.
    rewrite Ef. simpl.
    rewrite points_of_two_rows by congruence. simpl.
    rewrite Eb. simpl.
    rewrite points_of_two_rows by congruence. reflexivity.
  - unfold point. rewrite !length_combine. lia.
Qed.

Lemma streamline_of_complete_runs X Y U V p t n m b velocity :
  0 <= n ->
  make_velocity_field X Y U V b = Ok velocity ->
  complete_run solve_ivp velocity t p m n ->
  complete_run solve_ivp velocity (F64.opp t) p m n ->
  exists fwd bwd,
    streamline solve_ivp X Y U V p t n m b = Ok (rev bwd ++ tl fwd)
    /\ length fwd = Z.to_nat n /\ length bwd = Z.to_nat n.
Proof.
  intros Hn Hv Hf Hb.
  destruct (complete_runs_inv X Y U V p t n m b velocity Hn Hv Hf Hb)
    as (_ & _ & _ & _ & fwd & bwd & _ & _ & _ & _ & E & L).
  now exists fwd, bwd.
Qed.


End StreamlineFacts.


(** On that call the forward run stalls: its second sample, [(0, 2)], is a
    state where the derivative is zero, and the rows after it repeat
    it. *)
Lemma stalled_forward_run :
  streamline euler_ivp Sample.X Sample.Y Sample.decaying Sample.zeros
    (Sample.z 2, Sample.z 2) (Sample.z 8) 3 "LSODA" false
  = Ok [(Sample.z 8, Sample.z 2); (Sample.z 4, Sample.z 2);
        (Sample.z 2, Sample.z 2); (Sample.z 0, Sample.z 2);
        (Sample.z 0, Sample.z 2)]
  /\ forall velocity,
       make_velocity_field Sample.X Sample.Y Sample.decaying Sample.zeros
         false = Ok velocity ->
       at_rest velocity (Sample.z 0, Sample.z 2).
Proof.
  split; [vm_compute; reflexivity|].
  intros velocity H. injection H as <-. intros t. vm_compute. reflexivity.
Qed.

(** A run that ends early.  On the field [U = V = -x * y] over the
    5 x 5 grid, with seed [(2, 2)], [t_max = 1] and three samples per
    direction, the backward run cannot reach its second sample time,
    [t = -1/2]: it returns the seed alone, the forward run returns its
    three samples. *)
Lemma truncated_backward_run :
  streamline (failing_ivp Sample.before_singularity) Sample.X Sample.Y
    Sample.singular Sample.singular (Sample.z 2, Sample.z 2) (Sample.z 1) 3
    "RK45" false
  = Ok [(Sample.z 2, Sample.z 2); (Sample.z 0, Sample.z 0);
        (Sample.z 0, Sample.z 0)].
Proof. vm_compute. reflexivity. Qed.


(** C2, as first stated, fails on the same call: the backward run has
    fewer than [max_points] points, the seed sits at index 0, and the
    point at index [max_points - 1] is the last point of the forward
    run. *)
Lemma truncated_run_displaces_seed :
  exists pts,
    streamline (failing_ivp Sample.before_singularity) Sample.X Sample.Y
      Sample.singular Sample.singular (Sample.z 2, Sample.z 2) (Sample.z 1)
      3 "RK45" false = Ok pts
    /\ nth_error pts (Z.to_nat (3 - 1)) = Some (Sample.z 0, Sample.z 0)
    /\ nth_error pts (Z.to_nat (3 - 1)) <> Some (Sample.z 2, Sample.z 2)
    /\ nth_error pts 0 = Some (Sample.z 2, Sample.z 2).
Proof.
  eexists. split; [exact truncated_backward_run|].
  split; [reflexivity|]. split; [|reflexivity].
  vm_compute. discriminate.
Qed.

(** The uniform-field run of the reference stepper. *)
Lemma uniform_run :
  streamline euler_ivp Sample.X Sample.Y Sample.ones Sample.zeros
    (Sample.z 2, Sample.z 2) (Sample.z 1) 3 "LSODA" false
  = Ok Sample.uniform_trajectory.
Proof. vm_compute. reflexivity. Qed.

(** [streamline_assembly] at the uniform-field run. *)
Lemma streamline_assembly_witness :
  exists velocity t_fwd t_bwd sol_fwd sol_bwd fwd bwd,
    make_velocity_field Sample.X Sample.Y Sample.ones Sample.zeros false
      = Ok velocity
    /\ linspace F64.zero (Sample.z 1) 3 = Ok t_fwd
    /\ linspace F64.zero (F64.opp (Sample.z 1)) 3 = Ok t_bwd
    /\ euler_ivp velocity (F64.zero, Sample.z 1) (Sample.z 2, Sample.z 2)
         "LSODA"%string t_fwd = Ok sol_fwd
    /\ points_of sol_fwd = Ok fwd
    /\ euler_ivp velocity (F64.zero, F64.opp (Sample.z 1))
         (Sample.z 2, Sample.z 2) "LSODA"%string t_bwd = Ok sol_bwd
    /\ points_of sol_bwd = Ok bwd
    /\ Sample.uniform_trajectory = rev bwd ++ tl fwd
    /\ (forall q, hd_error bwd = Some q ->
        nth_error Sample.uniform_trajectory (length bwd - 1) = Some q)
    /\ (Z.of_nat (length bwd) = 3 ->
        hd_error bwd = Some (Sample.z 2, Sample.z 2) ->
        nth_error Sample.uniform_trajectory (Z.to_nat (3 - 1))
        = Some (Sample.z 2, Sample.z 2)).
Proof.
  apply (streamline_assembly euler_ivp Sample.X Sample.Y Sample.ones
           Sample.zeros (Sample.z 2, Sample.z 2) (Sample.z 1) 3 "LSODA"
           false Sample.uniform_trajectory).
  vm_compute. reflexivity.
Defined.

(** ** The meshgrid arguments *)

Lemma row0_nth_error (X : array2) :
  row0 X = match nth_error X 0 with
           | Some r => Ok r
           | None => Raise IndexError
           end.
Proof. destruct X; reflexivity. Qed.

Lemma col0_gather (Y : array2) :
  col0 Y = gather (map (fun r => nth_error r 0) Y).
Proof.
  induction Y as [|r Y IH]; [reflexivity|].
  destruct r as [|a r]; simpl; [reflexivity|].
  now rewrite IH.
Qed.

Section Meshgrid.

Variable solve_ivp : solver.

(** C10. Two calls whose [X] agree on row 0 and whose [Y] agree on
    column 0, all else equal, give the same outcome. *)
Theorem streamline_reads_first_row_and_column X X' Y Y' U V p t n m b :
  nth_error X 0 = nth_error X' 0 ->
  map (fun r => nth_error r 0) Y = map (fun r => nth_error r 0) Y' ->
  streamline solve_ivp X Y U V p t n m b
  = streamline solve_ivp X' Y' U V p t n m b.
Proof.
  intros HX HY.
  unfold streamline, make_velocity_field.
  now rewrite (row0_nth_error X), (row0_nth_error X'), HX,
    (col0_gather Y), (col0_gather Y'), HY.
Qed.

End Meshgrid.

Lemma streamline_reads_first_row_and_column_witness :
  streamline euler_ivp Sample.X Sample.Y Sample.ones Sample.zeros
    (Sample.z 2, Sample.z 2) (Sample.z 1) 3 "LSODA" false
  = streamline euler_ivp Sample.X_scrambled Sample.Y_scrambled Sample.ones
      Sample.zeros (Sample.z 2, Sample.z 2) (Sample.z 1) 3 "LSODA" false.
Proof.
  apply (streamline_reads_first_row_and_column euler_ivp);
    vm_compute; reflexivity.
Defined.

(** ** The velocity function *)

Lemma nonfinite_div (a d : float) :
  F64.isfinite a = false -> F64.isfinite (a / d)%f64 = false.
Proof. destruct a, d; simpl; try discriminate; reflexivity. Qed.

Lemma velocity_field_fallback Ui Vi nrm t x y :
  F64.isfinite (RGI.call Ui (y, x) / nrm (y, x))%f64
  && F64.isfinite (RGI.call Vi (y, x) / nrm (y, x))%f64 = false ->
  velocity_field Ui Vi nrm t (x, y) = (F64.zero, F64.zero).
Proof. intros H. unfold velocity_field. now rewrite H. Qed.

(** X1. The solver never receives a non-finite derivative: both components of
    the value of [velocity_field] are finite, whatever the interpolators,
    the normalizer, the time and the position. *)
Theorem velocity_field_is_finite Ui Vi nrm t q :
  F64.isfinite (fst (velocity_field Ui Vi nrm t q))
  && F64.isfinite (snd (velocity_field Ui Vi nrm t q)) = true.
Proof.
  destruct q as [x y]. unfold velocity_field.
  destruct (F64.isfinite (RGI.call Ui (y, x) / nrm (y, x))%f64
            && F64.isfinite (RGI.call Vi (y, x) / nrm (y, x))%f64) eqn:E.
  - exact E.
  - reflexivity.
Qed.

Lemma make_velocity_field_inv X Y U V b vf :
  make_velocity_field X Y U V b = Ok vf ->
  exists gy gx Ui Vi nrm,
    col0 Y = Ok gy /\ row0 X = Ok gx
    /\ RGI.make gy gx U = Ok Ui /\ RGI.make gy gx V = Ok Vi
    /\ (if b
        then exists N, RGI.make gy gx (speed_of U V) = Ok N
                       /\ nrm = RGI.call N
        else nrm = fun _ => F64.one)
    /\ vf = velocity_field Ui Vi nrm.
Proof.
  unfold make_velocity_field. intros H.
  inv_bind H. inv_bind H. inv_bind H. inv_bind H. inv_bind H.
  injection H as <-.
  do 5 eexists. repeat (split; [eassumption|]). split; [|reflexivity].
  destruct b.
  - inv_bind E3. injection E3 as <-. eauto.
  - injection E3 as <-. reflexivity.
Qed.



(** A NaN among the four corners makes the interpolated value NaN. *)
Lemma evaluate_linear_nan v i0 i1 y0 y1 :
  F64.isnan (at2 v i0 i1) || F64.isnan (at2 v i0 (S i1))
  || F64.isnan (at2 v (S i0) i1) || F64.isnan (at2 v (S i0) (S i1)) = true ->
  RGI.evaluate_linear v i0 i1 y0 y1 = F64.nan.
Proof.
  intros H. unfold RGI.evaluate_linear.
  repeat (apply orb_true_iff in H; destruct H as [H|H]);
    match type of H with
    | F64.isnan ?c = true =>
        destruct c; try discriminate; fold F64.nan
    end;
    repeat (rewrite ?mul_nan_l, ?mul_nan_r, ?add_nan_l, ?add_nan_r);
    reflexivity.
Qed.

Lemma evaluate_along_nan (a b w : float) :
  F64.isnan a || F64.isnan b = true -> RGI.evaluate_along a b w = F64.nan.
Proof.
  intros H. unfold RGI.evaluate_along.
  apply orb_true_iff in H. destruct H as [H|H];
    match type of H with
    | F64.isnan ?c = true => destruct c; try discriminate; fold F64.nan
    end;
    repeat (rewrite ?mul_nan_l, ?mul_nan_r, ?add_nan_l, ?add_nan_r);
    reflexivity.
Qed.

(** An entry that exists is what indexing returns. *)
Lemma entry_at2 (v : array2) (i j : nat) (a : float) :
  entry v i j = Some a -> at2 v i j = a.
Proof.
  unfold entry, at2. intros H.
  destruct (nth_error v i) as [r|] eqn:Er; [|discriminate].
  rewrite (nth_error_nth v i [] Er).
  now apply nth_error_nth.
Qed.

Lemma holds_at_nan (v : array2) (ij : nat * nat) :
  holds_at F64.isnan v ij = true ->
  F64.isnan (at2 v (fst ij) (snd ij)) = true.
Proof.
  unfold holds_at. intros H.
  destruct (entry v (fst ij) (snd ij)) as [a|] eqn:E; [|discriminate].
  now rewrite (entry_at2 _ _ _ _ E).
Qed.

Lemma call_nan_corner f y x :
  nan_corner f y x = true -> RGI.call f (y, x) = F64.nan.
Proof.
  intros H. unfold RGI.call.
  destruct (F64.isnan y || F64.isnan x); [reflexivity|].
  cbv zeta. unfold nan_corner, corners in H.
  destruct (RGI.one_point (RGI.grid_x f)).
  - destruct (RGI.one_point (RGI.grid_y f)); [reflexivity|].
    cbn [existsb] in H. rewrite orb_false_r in H.
    apply evaluate_along_nan.
    apply orb_true_iff in H. apply orb_true_iff.
    destruct H as [H|H]; [left|right]; exact (holds_at_nan _ _ H).
  - destruct (RGI.one_point (RGI.grid_y f)).
    + cbn [existsb] in H. rewrite orb_false_r in H.
      apply evaluate_along_nan.
      apply orb_true_iff in H. apply orb_true_iff.
      destruct H as [H|H]; [left|right]; exact (holds_at_nan _ _ H).
    + cbn [existsb] in H. rewrite orb_false_r in H.
      apply evaluate_linear_nan.
      repeat (apply orb_true_iff in H; destruct H as [H|H]);
        apply holds_at_nan in H; cbn [fst snd] in H; rewrite H;
        rewrite ?orb_true_r; reflexivity.
Qed.

(** C9. A non-finite interpolated component, a non-finite quotient, or a
    NaN among the lattice values around the position: in each case the
    velocity function returns the zero vector. *)
Theorem nonfinite_velocity_is_zeroed Ui Vi nrm t x y :
  F64.isfinite (RGI.call Ui (y, x)) = false
  \/ F64.isfinite (RGI.call Vi (y, x)) = false
  \/ F64.isfinite (RGI.call Ui (y, x) / nrm (y, x))%f64 = false
  \/ F64.isfinite (RGI.call Vi (y, x) / nrm (y, x))%f64 = false
  \/ nan_corner Ui y x = true
  \/ nan_corner Vi y x = true ->
  velocity_field Ui Vi nrm t (x, y) = (F64.zero, F64.zero).
Proof.
  intros H. apply velocity_field_fallback. apply andb_false_iff.
  destruct H as [H|[H|[H|[H|[H|H]]]]].
  - left. now apply nonfinite_div.
  - right. now apply nonfinite_div.
  - now left.
  - now right.
  - left. rewrite (call_nan_corner _ _ _ H). now rewrite nan_div.
  - right. rewrite (call_nan_corner _ _ _ H). now rewrite nan_div.
Qed.

Lemma nonfinite_velocity_is_zeroed_witness :
  exists Ui Vi,
    RGI.make (map Sample.z Sample.axis) (map Sample.z Sample.axis)
      Sample.masked = Ok Ui
    /\ RGI.make (map Sample.z Sample.axis) (map Sample.z Sample.axis)
         Sample.zeros = Ok Vi
    /\ velocity_field Ui Vi (fun _ => F64.one) F64.zero
         ((Sample.z 5 / Sample.z 2)%f64, (Sample.z 3 / Sample.z 2)%f64)
       = (F64.zero, F64.zero).
Proof.
  do 2 eexists. split; [reflexivity|]. split; [reflexivity|].
  apply nonfinite_velocity_is_zeroed.
  right; right; right; right; left.
  vm_compute. reflexivity.
Defined.

(** ** The zero field *)

Lemma zn_mul (a w : float) : zn a = true -> zn (a * w)%f64 = true.
Proof. destruct a; try discriminate; intros _; destruct w; reflexivity. Qed.

Lemma zn_add (a b : float) :
  zn a = true -> zn b = true -> zn (a + b)%f64 = true.
Proof.
  destruct a as [[]| | |]; try discriminate; intros _;
    destruct b as [[]| | |]; try discriminate; intros _; reflexivity.
Qed.

Lemma zn_div (a d : float) : zn a = true -> zn (a / d)%f64 = true.
Proof. destruct a; try discriminate; intros _; destruct d; reflexivity. Qed.

Lemma zn_finite (a : float) :
  zn a = true -> F64.isfinite a = true -> F64.is_zero a = true.
Proof. destruct a; try discriminate; reflexivity. Qed.

Lemma at2_zn (A : array2) (i j : nat) : all_zero A -> zn (at2 A i j) = true.
Proof.
  intros HA. unfold at2.
  assert (Hrow : Forall (fun v => F64.is_zero v = true) (nth i A [])).
  { destruct (nth_in_or_default i A []) as [Hin| ->]; [|constructor].
    exact (proj1 (Forall_forall _ _) HA _ Hin). }
  destruct (nth_in_or_default j (nth i A []) F64.nan) as [Hin| ->];
    [|reflexivity].
  unfold zn. now rewrite (proj1 (Forall_forall _ _) Hrow _ Hin).
Qed.

Lemma evaluate_linear_zn v i0 i1 y0 y1 :
  all_zero v -> zn (RGI.evaluate_linear v i0 i1 y0 y1) = true.
Proof.
  intros Hv. unfold RGI.evaluate_linear.
  repeat apply zn_add; try reflexivity;
    repeat apply zn_mul; apply at2_zn; exact Hv.
Qed.

Lemma evaluate_along_zn (a b w : float) :
  zn a = true -> zn b = true -> zn (RGI.evaluate_along a b w) = true.
Proof.
  intros Ha Hb. unfold RGI.evaluate_along.
  apply zn_add; now apply zn_mul.
Qed.

Lemma call_zn f q : all_zero (RGI.values f) -> zn (RGI.call f q) = true.
Proof.
  intros Hv. destruct q as [y x]. unfold RGI.call.
  destruct (F64.isnan y || F64.isnan x); [reflexivity|].
  cbv zeta.
  destruct (RGI.one_point (RGI.grid_x f)), (RGI.one_point (RGI.grid_y f));
    try reflexivity;
    try (apply evaluate_along_zn; now apply at2_zn).
  now apply evaluate_linear_zn.
Qed.

Lemma all_zero_flip (a b : bool) (A : array2) :
  all_zero A -> all_zero (RGI.flip_cols a (RGI.flip_rows b A)).
Proof.
  intros HA.
  assert (HB : all_zero (RGI.flip_rows b A)).
  { destruct b; simpl; [apply Forall_rev|]; exact HA. }
  destruct a; simpl; [|exact HB].
  apply Forall_map. revert HB. apply Forall_impl.
  intros r. apply Forall_rev.
Qed.

Lemma make_all_zero gy gx A f :
  RGI.make gy gx A = Ok f -> all_zero A -> all_zero (RGI.values f).
Proof.
  unfold RGI.make. intros H HA.
  inv_bind H. inv_bind H.
  destruct (RGI.check_dimensionality gy gx A); [|discriminate].
  injection H as <-. simpl. now apply all_zero_flip.
Qed.

Lemma velocity_field_zero Ui Vi nrm t q :
  all_zero (RGI.values Ui) -> all_zero (RGI.values Vi) ->
  zero_vec (velocity_field Ui Vi nrm t q) = true.
Proof.
  intros HU HV. destruct q as [x y]. unfold velocity_field.
  pose proof (zn_div _ (nrm (y, x)) (call_zn Ui (y, x) HU)) as Zu.
  pose proof (zn_div _ (nrm (y, x)) (call_zn Vi (y, x) HV)) as Zv.
  destruct (F64.isfinite (RGI.call Ui (y, x) / nrm (y, x))%f64) eqn:Fu;
    [|reflexivity].
  destruct (F64.isfinite (RGI.call Vi (y, x) / nrm (y, x))%f64) eqn:Fv;
    [|reflexivity].
  unfold zero_vec. cbn [fst snd andb].
  now rewrite (zn_finite _ Zu Fu), (zn_finite _ Zv Fv).
Qed.

Lemma zero_field_velocity X Y U V b vf :
  all_zero U -> all_zero V ->
  make_velocity_field X Y U V b = Ok vf ->
  forall t q, zero_vec (vf t q) = true.
Proof.
  intros HU HV H t q.
  destruct (make_velocity_field_inv _ _ _ _ _ _ H)
    as (gy & gx & Ui & Vi & nrm & _ & _ & EU & EV & _ & ->).
  apply velocity_field_zero; eapply make_all_zero; eassumption.
Qed.

(** X2. On the zero field the velocity function returns a zero vector at every
    time and position, with or without normalization. *)
Theorem zero_field_velocity_vanishes X Y U V b vf t q :
  all_zero U -> all_zero V ->
  make_velocity_field X Y U V b = Ok vf ->
  zero_vec (vf t q) = true.
Proof.
  intros HU HV H. revert t q. exact (zero_field_velocity _ _ _ _ _ _ HU HV H).
Qed.

(** C6. On the zero field, with a solver that keeps a state at rest, every
    point of a returned trajectory is the seed. *)
Theorem zero_field_stays_at_seed solve_ivp X Y U V p t n m b pts :
  all_zero U -> all_zero V ->
  keeps_rest solve_ivp ->
  streamline solve_ivp X Y U V p t n m b = Ok pts ->
  Forall (eq p) pts.
Proof.
  intros HU HV Hrest H.
  destruct (streamline_inv _ _ _ _ _ _ _ _ _ _ _ H)
    as (vf & tf & tb & sf & sb & fwd & bwd & Hv & _ & _ & Hf & Pf & Hb & Pb
        & ->).
  pose proof (zero_field_velocity _ _ _ _ _ _ HU HV Hv) as Hz.
  pose proof (Hrest _ _ _ _ _ _ _ Hz Hf Pf) as Ff.
  pose proof (Hrest _ _ _ _ _ _ _ Hz Hb Pb) as Fb.
  apply Forall_app. split.
  - now apply Forall_rev.
  - destruct fwd as [|q fwd]; [constructor|].
    now inversion Ff.
Qed.

(** The reference stepper keeps a state at rest. *)
Lemma euler_walk_rest (f : rhs) (p : point) (ts : array1) :
  (forall t q, zero_vec (f t q) = true) ->
  forall t, euler_walk f t p ts = repeat p (length ts).
Proof.
  intros Hz. induction ts as [|t' ts IH]; intros t; simpl; [reflexivity|].
  unfold euler_step. fold (zero_vec (f t p)). rewrite Hz.
  now rewrite IH.
Qed.

Lemma euler_keeps_rest : keeps_rest euler_ivp.
Proof.
  intros f span p m ts sol pts Hz Hs Hp.
  unfold euler_ivp in Hs. injection Hs as <-.
  rewrite points_of_two_rows in Hp by now rewrite !length_map.
  injection Hp as <-.
  rewrite combine_fst_snd, (euler_walk_rest f p ts Hz).
  apply Forall_forall. intros q Hq. symmetry. exact (repeat_spec _ _ _ Hq).
Qed.

Lemma all_zero_sample : all_zero Sample.zeros.
Proof. repeat constructor. Qed.

Lemma zero_field_velocity_vanishes_witness :
  exists vf,
    make_velocity_field Sample.X Sample.Y Sample.zeros Sample.zeros true
      = Ok vf
    /\ zero_vec (vf F64.zero (Sample.z 9, Sample.half)) = true.
Proof.
  eexists. split; [reflexivity|].
  eapply (zero_field_velocity_vanishes Sample.X Sample.Y Sample.zeros
            Sample.zeros true).
  - exact all_zero_sample.
  - exact all_zero_sample.
  - reflexivity.
Defined.

Lemma zero_field_stays_at_seed_witness :
  Forall (eq (Sample.z 2, Sample.half))
    (repeat (Sample.z 2, Sample.half) 5).
Proof.
  apply (zero_field_stays_at_seed euler_ivp Sample.X Sample.Y Sample.zeros
           Sample.zeros (Sample.z 2, Sample.half) (Sample.z 1) 3
           "LSODA" true).
  - exact all_zero_sample.
  - exact all_zero_sample.
  - exact euler_keeps_rest.
  - vm_compute. reflexivity.
Defined.

(** ** A seed outside the grid *)

(** C5, at a failing input.  The uniform field on the 5 x 5 grid, seed
    [(9, 2)], to the right of the grid: the interpolators extrapolate, the
    velocity at the seed is [(1, 0)], not zero, and the reference stepper
    moves away from the seed. *)
Theorem outside_seed_is_not_stalled :
  exists vf,
    make_velocity_field Sample.X Sample.Y Sample.ones Sample.zeros false
      = Ok vf
    /\ vf F64.zero (Sample.z 9, Sample.z 2) = (Sample.z 1, Sample.z 0)
    /\ streamline euler_ivp Sample.X Sample.Y Sample.ones Sample.zeros
         (Sample.z 9, Sample.z 2) (Sample.z 1) 3 "LSODA" false
       = Ok [(Sample.z 8, Sample.z 2);
             ((Sample.z 17 / Sample.z 2)%f64, Sample.z 2);
             (Sample.z 9, Sample.z 2);
             ((Sample.z 19 / Sample.z 2)%f64, Sample.z 2);
             (Sample.z 10, Sample.z 2)].
Proof.
  eexists. split; [reflexivity|].
  split; vm_compute; reflexivity.
Qed.

(** ** The order on floats *)

Lemma compare_finite_lt_trans s1 m1 e1 s2 m2 e2 s3 m3 e3 :
  SFcompare (S754_finite s1 m1 e1) (S754_finite s2 m2 e2) = Some Lt ->
  SFcompare (S754_finite s2 m2 e2) (S754_finite s3 m3 e3) = Some Lt ->
  SFcompare (S754_finite s1 m1 e1) (S754_finite s3 m3 e3) = Some Lt.
Proof.
  simpl. change (Pos.compare_cont Eq) with Pos.compare.
  destruct s1, s2, s3; try discriminate; try reflexivity; intros H1 H2;
    destruct (Z.compare_spec e1 e2), (Z.compare_spec e2 e3);
    try discriminate; subst;
    try (destruct (Pos.compare_spec m1 m2); try discriminate);
    try (destruct (Pos.compare_spec m2 m3); try discriminate); subst;
    repeat match goal with
    | |- context [Z.compare ?a ?a] => rewrite Z.compare_refl
    | |- context [Z.compare ?a ?b] =>
        first [ rewrite (proj2 (Z.compare_lt_iff a b)) by lia
              | rewrite (proj2 (Z.compare_gt_iff a b)) by lia ]
    | |- context [Pos.compare ?a ?b] =>
        first [ rewrite (proj2 (Pos.compare_lt_iff a b)) by lia
              | rewrite (proj2 (Pos.compare_gt_iff a b)) by lia ]
    end; try reflexivity; try discriminate.
Qed.

Lemma ltb_trans (a b c : float) :
  F64.ltb a b = true -> F64.ltb b c = true -> F64.ltb a c = true.
Proof.
  unfold F64.ltb, SFltb.
  destruct (SFcompare a b) as [[]|] eqn:E1; try discriminate.
  destruct (SFcompare b c) as [[]|] eqn:E2; try discriminate.
  intros _ _.
  destruct a as [sa|sa| |sa ma ea], b as [sb|sb| |sb mb eb],
           c as [sc|sc| |sc mc ec];
    try discriminate;
    try (rewrite (compare_finite_lt_trans _ _ _ _ _ _ _ _ _ E1 E2);
         reflexivity);
    simpl in *;
    repeat match goal with s : bool |- _ => destruct s end;
    try discriminate; reflexivity.
Qed.

Lemma ltb_asym (a b : float) : F64.ltb a b = true -> F64.ltb b a = false.
Proof.
  unfold F64.ltb, SFltb.
  destruct a as [sa|sa| |sa ma ea], b as [sb|sb| |sb mb eb]; simpl;
    repeat match goal with s : bool |- _ => destruct s end;
    try discriminate; try reflexivity.
  all: change (Pos.compare_cont Eq) with Pos.compare;
    rewrite (Z.compare_antisym ea eb), (Pos.compare_antisym ma mb);
    destruct (ea ?= eb), (ma ?= mb)%positive; simpl;
    try discriminate; try reflexivity.
Qed.

(** ** Axes and cells *)

Lemma ascending_cons2 (a b : float) (l : array1) :
  RGI.strictly_ascending (a :: b :: l)
  = F64.ltb a b && RGI.strictly_ascending (b :: l).
Proof. reflexivity. Qed.

Lemma descending_cons2 (a b : float) (l : array1) :
  RGI.strictly_descending (a :: b :: l)
  = F64.ltb b a && RGI.strictly_descending (b :: l).
Proof. reflexivity. Qed.

Lemma ascending_tl (a : float) (l : array1) :
  RGI.strictly_ascending (a :: l) = true -> RGI.strictly_ascending l = true.
Proof.
  destruct l as [|b l]; [reflexivity|]. simpl.
  intros H. apply andb_true_iff in H. apply H.
Qed.

Lemma descending_tl (a : float) (l : array1) :
  RGI.strictly_descending (a :: l) = true ->
  RGI.strictly_descending l = true.
Proof.
  destruct l as [|b l]; [reflexivity|]. simpl.
  intros H. apply andb_true_iff in H. apply H.
Qed.

Lemma ascending_below_last (tl : array1) :
  forall a b, RGI.strictly_ascending (a :: b :: tl) = true ->
  F64.ltb a (last (b :: tl) F64.nan) = true.
Proof.
  induction tl as [|c tl IH]; intros a b H; simpl in H;
    apply andb_true_iff in H; destruct H as [Hab H].
  - exact Hab.
  - apply (ltb_trans a b); [exact Hab|].
    change (last (b :: c :: tl) F64.nan) with (last (c :: tl) F64.nan).
    apply IH. exact H.
Qed.

Lemma find_interval_step (a b c : float) (tl : array1) (x : float) :
  RGI.find_interval (a :: b :: c :: tl) x
  = if F64.ltb x b then O else S (RGI.find_interval (b :: c :: tl) x).
Proof. reflexivity. Qed.

(** With two coordinates or more, the located cell and its upper edge are
    indices of the axis. *)
Lemma find_interval_in_range (g : array1) (x : float) :
  (2 <= length g)%nat -> (S (RGI.find_interval g x) < length g)%nat.
Proof.
  induction g as [|a g IH]; [simpl; lia|].
  destruct g as [|b [|c tl]]; [simpl; lia | simpl; lia |].
  intros _. rewrite find_interval_step.
  destruct (F64.ltb x b); [simpl; lia|].
  specialize (IH ltac:(simpl; lia)).
  cbn [length] in *. lia.
Qed.

Lemma find_interval_below (g : array1) (x : float) :
  RGI.strictly_ascending g = true ->
  F64.ltb x (first_coord g) = true ->
  RGI.find_interval g x = O.
Proof.
  destruct g as [|a [|b [|c tl]]]; try reflexivity.
  unfold first_coord, at1. simpl nth. intros H Hx.
  rewrite find_interval_step.
  simpl in H. apply andb_true_iff in H. destruct H as [Hab _].
  now rewrite (ltb_trans x a b Hx Hab).
Qed.

Lemma find_interval_above (g : array1) (x : float) :
  RGI.strictly_ascending g = true ->
  F64.ltb (last_coord g) x = true ->
  RGI.find_interval g x = (length g - 2)%nat.
Proof.
  unfold last_coord.
  induction g as [|a g IH]; [reflexivity|].
  destruct g as [|b [|c tl]]; try reflexivity.
  intros H Hx.
  assert (Hb : F64.ltb x b = false).
  { apply ltb_asym. apply (ltb_trans b (last (c :: tl) F64.nan)).
    - apply ascending_below_last.
      simpl in H. apply andb_true_iff in H. apply H.
    - exact Hx. }
  rewrite find_interval_step, Hb, IH.
  - cbn [length]. lia.
  - simpl in H. apply andb_true_iff in H. apply H.
  - exact Hx.
Qed.

Lemma ascending_snoc (l : array1) (a : float) :
  RGI.strictly_ascending l = true ->
  (l = [] \/ F64.ltb (last l F64.nan) a = true) ->
  RGI.strictly_ascending (l ++ [a]) = true.
Proof.
  induction l as [|b l IH]; intros H Hl; [reflexivity|].
  destruct l as [|c l].
  - simpl. destruct Hl as [Hl|Hl]; [discriminate|]. simpl in Hl.
    now rewrite Hl.
  - simpl in H. apply andb_true_iff in H. destruct H as [Hbc H].
    change ((b :: c :: l) ++ [a]) with (b :: (c :: l) ++ [a]).
    change ((c :: l) ++ [a]) with (c :: l ++ [a]) at 1.
    cbn [RGI.strictly_ascending]. rewrite Hbc. simpl andb.
    apply IH; [exact H|].
    right. destruct Hl as [Hl|Hl]; [discriminate|exact Hl].
Qed.

Lemma descending_rev (p : array1) :
  RGI.strictly_descending p = true -> RGI.strictly_ascending (rev p) = true.
Proof.
  induction p as [|a p IH]; intros H; [reflexivity|].
  simpl rev. apply ascending_snoc.
  - apply IH. destruct p as [|b p]; [reflexivity|].
    simpl in H. apply andb_true_iff in H. apply H.
  - destruct p as [|b p]; [now left|right].
    simpl rev. rewrite last_last.
    simpl in H. apply andb_true_iff in H. apply H.
Qed.

Lemma check_points_Ok (p g : array1) (flipped : bool) :
  RGI.check_points p = Ok (g, flipped) ->
  RGI.strictly_ascending g = true /\ length g = length p.
Proof.
  unfold RGI.check_points.
  destruct (RGI.strictly_ascending p) eqn:Ea.
  - intros H. injection H as <- <-. now split.
  - destruct (RGI.strictly_descending p) eqn:Ed; [|discriminate].
    intros H. injection H as <- <-. split.
    + now apply descending_rev.
    + apply length_rev.
Qed.

Lemma make_grids py px A f :
  RGI.make py px A = Ok f ->
  RGI.strictly_ascending (RGI.grid_y f) = true
  /\ RGI.strictly_ascending (RGI.grid_x f) = true
  /\ length (RGI.grid_y f) = length py
  /\ length (RGI.grid_x f) = length px.
Proof.
  unfold RGI.make. intros H.
  inv_bind H. inv_bind H.
  destruct (RGI.check_dimensionality py px A); [|discriminate].
  injection H as <-. simpl.
  destruct a as [gy fy], a0 as [gx fx].
  destruct (check_points_Ok _ _ _ E) as [? ?].
  destruct (check_points_Ok _ _ _ E0) as [? ?].
  auto.
Qed.

(** ** Sampling outside the domain *)






(** ** Construction *)

Lemma check_points_raises (p : array1) :
  raises (RGI.check_points p) = negb (monotonic p).
Proof.
  unfold RGI.check_points, monotonic.
  destruct (RGI.strictly_ascending p); [reflexivity|].
  destruct (RGI.strictly_descending p); reflexivity.
Qed.

Lemma make_raises (gy gx : array1) (A : array2) :
  raises (RGI.make gy gx A)
  = negb (monotonic gy && monotonic gx
          && has_shape A (length gy) (length gx)).
Proof.
  pose proof (check_points_raises gy) as Hy.
  pose proof (check_points_raises gx) as Hx.
  unfold RGI.make.
  change (RGI.check_dimensionality gy gx A)
    with (has_shape A (length gy) (length gx)).
  destruct (RGI.check_points gy), (RGI.check_points gx);
    simpl in *;
    destruct (monotonic gy), (monotonic gx); try discriminate;
    try reflexivity.
  destruct (has_shape A (length gy) (length gx)); reflexivity.
Qed.

Lemma zip_with_length {A B C : Type} (f : A -> B -> C) (l : list A) :
  forall l', length l' = length l -> length (zip_with f l l') = length l.
Proof.
  induction l as [|a l IH]; intros [|b l'] H; simpl in *;
    try reflexivity; try discriminate.
  now rewrite IH by congruence.
Qed.

Lemma has_shape_map2d (f : float -> float) (A : array2) (r c : nat) :
  has_shape A r c = true -> has_shape (map2d f A) r c = true.
Proof.
  unfold has_shape, map2d. intros H.
  apply andb_true_iff in H. destruct H as [Hr Hc].
  rewrite length_map, Hr. simpl.
  rewrite forallb_forall in *. intros row Hin.
  apply in_map_iff in Hin. destruct Hin as (row' & <- & Hin).
  rewrite length_map. now apply Hc.
Qed.

Lemma has_shape_zip2d (f : float -> float -> float) (c : nat) :
  forall (A B : array2) (r : nat),
  has_shape A r c = true -> has_shape B r c = true ->
  has_shape (zip2d f A B) r c = true.
Proof.
  unfold has_shape, zip2d.
  induction A as [|a A IH]; intros [|b B] r HA HB;
    apply andb_true_iff in HA; destruct HA as [Ha Hac];
    apply andb_true_iff in HB; destruct HB as [Hb Hbc];
    apply Nat.eqb_eq in Ha; apply Nat.eqb_eq in Hb; simpl in *;
    try (subst r; discriminate).
  - subst r. reflexivity.
  - apply andb_true_iff in Hac. destruct Hac as [Hla HA].
    apply andb_true_iff in Hbc. destruct Hbc as [Hlb HB].
    apply Nat.eqb_eq in Hla. apply Nat.eqb_eq in Hlb.
    destruct r as [|r]; [discriminate|].
    specialize (IH B r).
    rewrite !andb_true_iff, !Nat.eqb_eq in IH.
    destruct IH as [IH1 IH2]; try (split; [lia|assumption]).
    apply andb_true_iff. split; [apply Nat.eqb_eq; lia|].
    apply andb_true_iff. split; [|exact IH2].
    apply Nat.eqb_eq. rewrite zip_with_length; congruence.
Qed.

Lemma has_shape_speed (U V : array2) (r c : nat) :
  has_shape U r c = true -> has_shape V r c = true ->
  has_shape (speed_of U V) r c = true.
Proof.
  intros HU HV. unfold speed_of.
  apply has_shape_map2d. apply has_shape_zip2d; now apply has_shape_map2d.
Qed.

Lemma make_velocity_field_raises X Y U V b :
  raises (make_velocity_field X Y U V b) = negb (well_formed X Y U V).
Proof.
  unfold make_velocity_field, well_formed.
  destruct (col0 Y) as [gy|e]; [|reflexivity].
  destruct (row0 X) as [gx|e]; [|reflexivity]. simpl.
  pose proof (make_raises gy gx U) as HU.
  pose proof (make_raises gy gx V) as HV.
  pose proof (make_raises gy gx (speed_of U V)) as HS.
  pose proof (has_shape_speed U V (length gy) (length gx)) as Hsp.
  destruct (RGI.make gy gx U) as [Ui|e]; simpl in HU |- *;
    destruct (monotonic gy), (monotonic gx),
      (has_shape U (length gy) (length gx)); try discriminate;
    try reflexivity.
  simpl in *.
  destruct (RGI.make gy gx V) as [Vi|e]; simpl in HV |- *;
    destruct (has_shape V (length gy) (length gx)); try discriminate;
    try reflexivity.
  rewrite Hsp in HS by reflexivity. simpl in HS.
  destruct b; [|reflexivity].
  destruct (RGI.make gy gx (speed_of U V)); [reflexivity|discriminate].
Qed.

(** ** Well-formed fields, in the words of the interface *)

Lemma ascending_below_rest (a : float) (l : array1) :
  RGI.strictly_ascending (a :: l) = true ->
  Forall (fun b => F64.ltb a b = true) l.
Proof.
  revert a. induction l as [|b l IH]; intros a H; [constructor|].
  rewrite ascending_cons2 in H. apply andb_true_iff in H.
  destruct H as [Hab H]. constructor; [exact Hab|].
  specialize (IH b H). revert IH. apply Forall_impl.
  intros c Hbc. exact (ltb_trans _ _ _ Hab Hbc).
Qed.

Lemma descending_above_tail (a : float) (l : array1) :
  RGI.strictly_descending (a :: l) = true ->
  Forall (fun b => F64.ltb b a = true) l.
Proof.
  revert a. induction l as [|b l IH]; intros a H; [constructor|].
  rewrite descending_cons2 in H. apply andb_true_iff in H.
  destruct H as [Hab H]. constructor; [exact Hab|].
  specialize (IH b H). revert IH. apply Forall_impl.
  intros c Hbc. exact (ltb_trans _ _ _ Hbc Hab).
Qed.

Lemma increasing_tl (a : float) (l : array1) :
  increasing (a :: l) -> increasing l.
Proof.
  intros H i j x y Hij Hi Hj.
  apply (H (S i) (S j) x y); [lia|exact Hi|exact Hj].
Qed.

Lemma decreasing_tl (a : float) (l : array1) :
  decreasing (a :: l) -> decreasing l.
Proof.
  intros H i j x y Hij Hi Hj.
  apply (H (S i) (S j) x y); [lia|exact Hi|exact Hj].
Qed.

(** The constructor compares neighbours; that settles every pair. *)
Lemma ascending_increasing (p : array1) :
  RGI.strictly_ascending p = true <-> increasing p.
Proof.
  split.
  - induction p as [|a l IH]; intros H i j x y Hij Hi Hj.
    + destruct i; discriminate.
    + destruct j as [|j]; [lia|]. cbn [nth_error] in Hj.
      destruct i as [|i].
      * cbn [nth_error] in Hi. injection Hi as <-.
        pose proof (ascending_below_rest a l H) as F.
        rewrite Forall_forall in F. apply F.
        exact (nth_error_In _ _ Hj).
      * cbn [nth_error] in Hi.
        apply (IH (ascending_tl _ _ H) i j x y); [lia|exact Hi|exact Hj].
  - induction p as [|a l IH]; intros H; [reflexivity|].
    destruct l as [|b l]; [reflexivity|].
    rewrite ascending_cons2. apply andb_true_iff. split.
    + apply (H 0%nat 1%nat a b); [lia|reflexivity|reflexivity].
    + apply IH. exact (increasing_tl _ _ H).
Qed.

Lemma descending_decreasing (p : array1) :
  RGI.strictly_descending p = true <-> decreasing p.
Proof.
  split.
  - induction p as [|a l IH]; intros H i j x y Hij Hi Hj.
    + destruct i; discriminate.
    + destruct j as [|j]; [lia|]. cbn [nth_error] in Hj.
      destruct i as [|i].
      * cbn [nth_error] in Hi. injection Hi as <-.
        pose proof (descending_above_tail a l H) as F.
        rewrite Forall_forall in F. apply F.
        exact (nth_error_In _ _ Hj).
      * cbn [nth_error] in Hi.
        apply (IH (descending_tl _ _ H) i j x y); [lia|exact Hi|exact Hj].
  - induction p as [|a l IH]; intros H; [reflexivity|].
    destruct l as [|b l]; [reflexivity|].
    rewrite descending_cons2. apply andb_true_iff. split.
    + apply (H 0%nat 1%nat a b); [lia|reflexivity|reflexivity].
    + apply IH. exact (decreasing_tl _ _ H).
Qed.

Lemma monotonic_iff (p : array1) :
  monotonic p = true <-> increasing p \/ decreasing p.
Proof.
  unfold monotonic. rewrite orb_true_iff.
  now rewrite ascending_increasing, descending_decreasing.
Qed.

Lemma has_shape_iff (A : array2) (gy gx : array1) :
  has_shape A (length gy) (length gx) = true <-> grid_shaped A gy gx.
Proof.
  unfold has_shape, grid_shaped.
  rewrite andb_true_iff, Nat.eqb_eq, forallb_forall, Forall_forall.
  split; intros [H1 H2]; (split; [exact H1|]);
    intros r Hr; apply Nat.eqb_eq; now apply H2.
Qed.

Lemma well_formed_iff X Y U V :
  well_formed X Y U V = true <-> WellFormedField X Y U V.
Proof.
  unfold well_formed, WellFormedField. split.
  - destruct (col0 Y) as [gy|e]; [|discriminate].
    destruct (row0 X) as [gx|e]; [|discriminate].
    rewrite !andb_true_iff, !monotonic_iff, !has_shape_iff.
    intros [[[Hy Hx] HU] HV]. exists gy, gx. tauto.
  - intros (gy & gx & -> & -> & Hy & Hx & HU & HV).
    rewrite !andb_true_iff, !monotonic_iff, !has_shape_iff. tauto.
Qed.

(** ** Where a call can raise *)

Lemma points_of_raises (sol_y : array2) :
  raises (points_of sol_y) = true <-> ~ two_rows sol_y.
Proof.
  unfold points_of, index_row, column_stack, two_rows.
  destruct (nth_error sol_y 0) as [xs|] eqn:E0; cbn [bind].
  - destruct (nth_error sol_y 1) as [ys|] eqn:E1; cbn [bind].
    + destruct (Nat.eqb_spec (length xs) (length ys)) as [L|L]; cbn [raises].
      * split; [discriminate|]. intros H. exfalso. apply H. now exists xs, ys.
      * split; [|reflexivity]. intros _ (xs' & ys' & Hx & Hy & L').
        congruence.
    + split; [|reflexivity]. intros _ (xs' & ys' & _ & Hy & _). discriminate.
  - split; [|reflexivity]. intros _ (xs' & ys' & Hx & _). discriminate.
Qed.

Lemma directed_run_raises (s : solver) (velocity : rhs) (t_end : float)
    (p : point) (m : string) (n : Z) :
  raises (directed_run s velocity t_end p m n) = true
  <-> n < 0
      \/ exists t_eval,
           linspace F64.zero t_end n = Ok t_eval
           /\ (raises (s velocity (F64.zero, t_end) p m t_eval) = true
               \/ exists sol_y,
                    s velocity (F64.zero, t_end) p m t_eval = Ok sol_y
                    /\ ~ two_rows sol_y).
Proof.
  unfold directed_run.
  destruct (Z.ltb_spec n 0) as [Hn|Hn].
  - rewrite (linspace_negative _ _ _ Hn). cbn. split; [now left|reflexivity].
  - destruct (linspace_Ok F64.zero t_end n Hn) as (ts & E & _).
    rewrite E. cbn [bind].
    destruct (s velocity (F64.zero, t_end) p m ts) as [sol|e] eqn:Es;
      cbn [bind].
    + rewrite points_of_raises. split.
      * intros H. right. exists ts. split; [reflexivity|].
        right. now exists sol.
      * intros [H|(ts' & Ets & [H|(sol' & Esol & H)])]; [lia| |].
        -- injection Ets as <-. rewrite Es in H. discriminate.
        -- injection Ets as <-. rewrite Es in Esol.
           injection Esol as <-. exact H.
    + cbn [raises]. split; [|reflexivity]. intros _. right.
      exists ts. split; [reflexivity|]. left. now rewrite Es.
Qed.

Lemma streamline_raises_with_a_run (s : solver) X Y U V p t n m b velocity :
  make_velocity_field X Y U V b = Ok velocity ->
  raises (streamline s X Y U V p t n m b)
  = raises (directed_run s velocity t p m n)
    || raises (directed_run s velocity (F64.opp t) p m n).
Proof.
  intros Hv. unfold streamline, directed_run. rewrite Hv. cbn [bind].
  destruct (Z.ltb_spec n 0) as [Hn|Hn].
  - now rewrite !(linspace_negative _ _ _ Hn).
  - destruct (linspace_Ok F64.zero t n Hn) as (tf & Ef & _).
    destruct (linspace_Ok F64.zero (F64.opp t) n Hn) as (tb & Eb & _).
    rewrite Ef, Eb. cbn [bind].
    destruct (s velocity (F64.zero, t) p m tf) as [sf|e]; cbn [bind];
      [|reflexivity].
    destruct (points_of sf) as [fwd|e]; cbn [bind]; [|reflexivity].
    destruct (s velocity (F64.zero, F64.opp t) p m tb) as [sb|e];
      cbn [bind]; [|reflexivity].
    destruct (points_of sb) as [bwd|e]; reflexivity.
Qed.

Section Raising.

Variable solve_ivp : solver.

(** C7 (amended). Building the interpolators raises exactly when the field
    is malformed: a coordinate vector is missing or neither increases nor
    decreases from each entry to every later one, or [U] or [V] does not
    have the shape of the grid.  That error ends the call, whatever the
    solver, which is never reached.  Once the interpolators are built the
    call raises exactly when one of the two directed runs does, and a run
    raises exactly when [max_points] is negative, when the solver raises,
    or when the [sol.y] it returns lacks two rows of one length. *)
Theorem streamline_raising X Y U V p t n m b :
  (raises (make_velocity_field X Y U V b) = true
   <-> ~ WellFormedField X Y U V)
  /\ (forall e, make_velocity_field X Y U V b = Raise e ->
      forall s : solver, streamline s X Y U V p t n m b = Raise e)
  /\ (forall velocity, make_velocity_field X Y U V b = Ok velocity ->
      raises (streamline solve_ivp X Y U V p t n m b)
      = raises (directed_run solve_ivp velocity t p m n)
        || raises (directed_run solve_ivp velocity (F64.opp t) p m n))
  /\ (forall velocity t_end,
      raises (directed_run solve_ivp velocity t_end p m n) = true
      <-> n < 0
          \/ exists t_eval,
               linspace F64.zero t_end n = Ok t_eval
               /\ (raises (solve_ivp velocity (F64.zero, t_end) p m t_eval)
                   = true
                   \/ exists sol_y,
                        solve_ivp velocity (F64.zero, t_end) p m t_eval
                        = Ok sol_y
                        /\ ~ two_rows sol_y)).
Proof.
  split; [|split; [|split]].
  - rewrite make_velocity_field_raises, <- well_formed_iff.
    destruct (well_formed X Y U V); cbn; split; congruence.
  - intros e He s. unfold streamline. now rewrite He.
  - intros velocity Hv. now apply streamline_raises_with_a_run.
  - intros velocity t_end. apply directed_run_raises.
Qed.

End Raising.

(** C7, as first stated, fails: a well-formed field and a finite seed, with
    no sample requested.  The solver, with no time it cannot reach,
    returns a [sol.y] without rows, and [sol.y[0]] raises [IndexError]. *)
Lemma wellformed_field_raises_without_samples :
  WellFormedField Sample.X Sample.Y Sample.ones Sample.zeros
  /\ streamline (failing_ivp (fun _ => false)) Sample.X Sample.Y
       Sample.ones Sample.zeros (Sample.z 2, Sample.z 2) (Sample.z 1) 0
       "LSODA" false
     = Raise IndexError.
Proof.
  split.
  - apply well_formed_iff. vm_compute. reflexivity.
  - vm_compute. reflexivity.
Qed.

(** * The inspection tool *)

(** ** Indices of true entries *)

Lemma where1_In (v : list bool) (i : nat) :
  In i (where1 v) <-> nth i v false = true.
Proof.
  unfold where1. rewrite filter_In, in_seq. split; [tauto|].
  intros H. split; [|exact H]. split; [lia|]. simpl.
  destruct (Nat.lt_ge_cases i (length v)) as [Hlt|Hge]; [exact Hlt|].
  rewrite nth_overflow in H by exact Hge. discriminate.
Qed.

Lemma filter_seq_head (p : nat -> bool) (n : nat) :
  forall s a rest, filter p (seq s n) = a :: rest ->
  p a = true /\ (s <= a < s + n)%nat
  /\ forall i, (s <= i < a)%nat -> p i = false.
Proof.
  induction n as [|n IH]; intros s a rest H; [discriminate|].
  simpl in H. destruct (p s) eqn:Ps.
  - injection H as <- _. repeat split; try lia. exact Ps.
  - destruct (IH _ _ _ H) as (Pa & Ha & Hlow).
    repeat split; try lia; [exact Pa|].
    intros i Hi. destruct (Nat.eq_dec i s) as [->|Hne]; [exact Ps|].
    apply Hlow. lia.
Qed.

Lemma filter_seq_last (p : nat -> bool) (n : nat) :
  forall s d, filter p (seq s n) <> [] ->
  let z := last (filter p (seq s n)) d in
  p z = true /\ (s <= z < s + n)%nat
  /\ forall i, (z < i < s + n)%nat -> p i = false.
Proof.
  induction n as [|n IH]; intros s d H; [now contradiction H|].
  cbv zeta. rewrite seq_S, filter_app in *. simpl filter in *.
  destruct (p (s + n)%nat) eqn:Pn.
  - rewrite last_last. repeat split; try lia. exact Pn.
  - rewrite app_nil_r in *.
    destruct (IH s d H) as (Pz & Hz & Hup).
    repeat split; try lia; [exact Pz|].
    intros i Hi. destruct (Nat.eq_dec i (s + n)%nat) as [->|Hne]; [exact Pn|].
    apply Hup. lia.
Qed.

(** The first and last index of a true entry: both are true, and every
    true entry lies between them. *)
Lemma first_last_where1 (v : list bool) (a z : nat) :
  first_last (where1 v) = Ok (a, z) ->
  nth a v false = true /\ nth z v false = true
  /\ (a <= z < length v)%nat
  /\ forall i, nth i v false = true -> (a <= i <= z)%nat.
Proof.
  unfold first_last, where1.
  destruct (filter _ (seq 0 (length v))) as [|a' rest] eqn:E; [discriminate|].
  intros H.
  assert (Ea : a' = a) by (injection H; auto).
  assert (Ez : last (a' :: rest) a' = z) by (injection H; auto).
  clear H. subst a.
  destruct (filter_seq_head _ _ _ _ _ E) as (Pa & Ha & Hlow).
  assert (Hne : filter (fun i => nth i v false) (seq 0 (length v)) <> [])
    by (rewrite E; discriminate).
  pose proof (filter_seq_last _ _ 0%nat a' Hne) as Hl.
  cbv zeta in Hl. rewrite E, Ez in Hl.
  destruct Hl as (Pz & Hz & Hup).
  assert (Haz : (a' <= z)%nat).
  { destruct (Nat.le_gt_cases a' z) as [|Hgt]; [assumption|].
    rewrite Hlow in Pz by lia. discriminate. }
  split; [exact Pa|]. split; [exact Pz|]. split; [lia|].
  intros i H. split.
  - destruct (Nat.le_gt_cases a' i) as [|Hgt]; [assumption|].
    rewrite Hlow in H by lia. discriminate.
  - destruct (Nat.le_gt_cases i z) as [|Hgt]; [assumption|].
    destruct (Nat.lt_ge_cases i (length v)) as [Hlt|Hge].
    + rewrite Hup in H by lia. discriminate.
    + rewrite nth_overflow in H by exact Hge. discriminate.
Qed.

Lemma first_last_where1_Ok (v : list bool) (i : nat) :
  nth i v false = true -> exists a z, first_last (where1 v) = Ok (a, z).
Proof.
  intros H. apply where1_In in H. unfold first_last.
  destruct (where1 v) as [|a rest]; [contradiction|]. eauto.
Qed.

(** ** Rows and columns of a mask *)

Lemma shaped_rows {A : Type} (M : list (list A)) (r c : nat) :
  shaped M r c = true ->
  length M = r /\ forall i, (i < r)%nat -> length (nth i M []) = c.
Proof.
  unfold shaped. intros H. apply andb_true_iff in H. destruct H as [Hr Hc].
  apply Nat.eqb_eq in Hr. split; [exact Hr|].
  intros i Hi. rewrite forallb_forall in Hc.
  apply Nat.eqb_eq. apply Hc. apply nth_In. lia.
Qed.

Lemma shaped_hd {A : Type} (M : list (list A)) (r c : nat) :
  shaped M r c = true -> (0 < r)%nat -> length (hd [] M) = c.
Proof.
  intros H Hr. destruct (shaped_rows _ _ _ H) as [Hl Hrow].
  specialize (Hrow 0%nat Hr). destruct M; [simpl in Hl; lia|exact Hrow].
Qed.

Lemma cell_in_range (m : mask2) (r c i j : nat) :
  shaped m r c = true -> cell m i j = true -> (i < r)%nat /\ (j < c)%nat.
Proof.
  intros H Hc. destruct (shaped_rows _ _ _ H) as [Hl Hrow].
  unfold cell in Hc.
  assert (Hi : (i < r)%nat).
  { destruct (Nat.lt_ge_cases i r) as [|Hge]; [assumption|].
    rewrite (nth_overflow m) in Hc by lia. destruct j; discriminate. }
  split; [exact Hi|].
  destruct (Nat.lt_ge_cases j c) as [|Hge]; [assumption|].
  rewrite nth_overflow in Hc by (rewrite Hrow; assumption). discriminate.
Qed.

Lemma existsb_nth (l : list bool) :
  existsb (fun b => b) l = true <-> exists j, nth j l false = true.
Proof.
  rewrite existsb_exists. split.
  - intros (b & Hin & ->). destruct (In_nth _ _ false Hin) as (j & _ & E).
    now exists j.
  - intros (j & E). exists true. split; [|reflexivity].
    rewrite <- E. apply nth_In.
    destruct (Nat.lt_ge_cases j (length l)) as [|Hge]; [assumption|].
    rewrite nth_overflow in E by exact Hge. discriminate.
Qed.

Lemma any_rows_nth (m : mask2) (i : nat) :
  nth i (any_rows m) false = true <-> exists j, cell m i j = true.
Proof.
  unfold any_rows, cell.
  change false with (existsb (fun b : bool => b) []) at 1.
  rewrite map_nth. apply existsb_nth.
Qed.

Lemma column_has_true (m : mask2) (j : nat) :
  existsb (fun r => nth j r false) m = true <-> exists i, cell m i j = true.
Proof.
  rewrite existsb_exists. unfold cell. split.
  - intros (r & Hin & E). destruct (In_nth _ _ [] Hin) as (i & _ & Ei).
    exists i. now rewrite Ei.
  - intros (i & E). exists (nth i m []). split; [|exact E].
    apply nth_In.
    destruct (Nat.lt_ge_cases i (length m)) as [|Hge]; [assumption|].
    rewrite (nth_overflow m) in E by exact Hge. destruct j; discriminate.
Qed.

Lemma any_cols_nth (m : mask2) (r c j : nat) :
  shaped m r c = true ->
  (nth j (any_cols m) false = true <-> exists i, cell m i j = true).
Proof.
  intros H. unfold any_cols.
  set (f := fun j => existsb (fun r => nth j r false) m).
  split.
  - intros E.
    assert (Hj : (j < length (hd [] m))%nat).
    { destruct (Nat.lt_ge_cases j (length (hd [] m))) as [|Hge];
        [assumption|].
      rewrite nth_overflow in E by (rewrite length_map, length_seq; lia).
      discriminate. }
    rewrite (nth_indep _ false (f 0%nat)) in E
      by (rewrite length_map, length_seq; lia).
    rewrite map_nth, seq_nth in E by lia.
    now apply column_has_true.
  - intros (i & E).
    destruct (cell_in_range _ _ _ _ _ H E) as [Hi Hj].
    rewrite (shaped_hd _ _ _ H) by lia.
    rewrite (nth_indep _ false (f 0%nat))
      by (rewrite length_map, length_seq; lia).
    rewrite map_nth, seq_nth by lia.
    apply column_has_true. now exists i.
Qed.

Lemma any_cols_length (m : mask2) (r c : nat) :
  shaped m r c = true -> (0 < r)%nat -> length (any_cols m) = c.
Proof.
  intros H Hr. unfold any_cols.
  now rewrite length_map, length_seq, (shaped_hd _ _ _ H Hr).
Qed.

Lemma any2_cell (m : mask2) :
  any2 m = true <-> exists i j, cell m i j = true.
Proof.
  unfold any2. rewrite existsb_exists. split.
  - intros (r & Hin & E). apply existsb_nth in E. destruct E as (j & E).
    destruct (In_nth _ _ [] Hin) as (i & _ & Ei).
    exists i, j. unfold cell. now rewrite Ei.
  - intros (i & j & E). exists (nth i m []). split.
    + apply nth_In.
      destruct (Nat.lt_ge_cases i (length m)) as [|Hge]; [assumption|].
      unfold cell in E. rewrite (nth_overflow m) in E by exact Hge.
      destruct j; discriminate.
    + apply existsb_nth. now exists j.
Qed.

(** X3. The guard of line 84 is what makes the two lookups [[[0, -1]]] safe:
    without a true entry the bounds raise [IndexError]; with one, they are
    the bounding box of the true entries, tight on all four sides. *)
Theorem mask_bounds_box (m : mask2) (r c : nat) :
  shaped m r c = true ->
  (any2 m = false -> mask_bounds m = Raise IndexError)
  /\ (any2 m = true ->
      exists i0 i1 j0 j1,
        mask_bounds m = Ok ((i0, i1), (j0, j1))
        /\ (i0 <= i1 < r)%nat /\ (j0 <= j1 < c)%nat
        /\ (forall i j, cell m i j = true ->
              (i0 <= i <= i1)%nat /\ (j0 <= j <= j1)%nat)
        /\ (exists j, cell m i0 j = true) /\ (exists j, cell m i1 j = true)
        /\ (exists i, cell m i j0 = true) /\ (exists i, cell m i j1 = true)).
Proof.
  intros H. split.
  - intros Hn. unfold mask_bounds.
    destruct (where1 (any_rows m)) as [|a rest] eqn:E; [reflexivity|].
    assert (Hin : In a (where1 (any_rows m))) by (rewrite E; now left).
    apply where1_In, any_rows_nth in Hin. destruct Hin as (j & Hc).
    assert (Ha : any2 m = true) by (apply any2_cell; eauto).
    congruence.
  - intros Ha. apply any2_cell in Ha. destruct Ha as (i & j & Hc).
    destruct (cell_in_range _ _ _ _ _ H Hc) as [Hi Hj].
    destruct (first_last_where1_Ok (any_rows m) i) as (i0 & i1 & Ei).
    { apply any_rows_nth. now exists j. }
    destruct (first_last_where1_Ok (any_cols m) j) as (j0 & j1 & Ej).
    { apply (any_cols_nth m r c j H). now exists i. }
    exists i0, i1, j0, j1.
    destruct (first_last_where1 _ _ _ Ei) as (Ri0 & Ri1 & Rb & Rall).
    destruct (first_last_where1 _ _ _ Ej) as (Cj0 & Cj1 & Cb & Call).
    unfold any_rows in Rb. rewrite length_map in Rb.
    rewrite (any_cols_length m r c H) in Cb by lia.
    destruct (shaped_rows _ _ _ H) as [Hl _].
    split; [unfold mask_bounds; now rewrite Ei, Ej|].
    split; [lia|]. split; [lia|].
    split.
    { intros i' j' Hc'. split.
      - apply Rall. apply any_rows_nth. now exists j'.
      - apply Call. apply (any_cols_nth m r c j' H). now exists i'. }
    split; [now apply any_rows_nth|].
    split; [now apply any_rows_nth|].
    split; [now apply (any_cols_nth m r c j0 H)|].
    now apply (any_cols_nth m r c j1 H).
Qed.

(** ** Slices and crops *)

Lemma slice_length {A : Type} (lo hi : nat) (l : list A) :
  (hi <= length l)%nat -> length (slice lo hi l) = (hi - lo)%nat.
Proof.
  intros H. unfold slice. rewrite length_firstn, length_skipn. lia.
Qed.

Lemma slice_nil {A : Type} (lo hi : nat) : slice lo hi (@nil A) = [].
Proof. unfold slice. destruct lo; apply firstn_nil. Qed.

Lemma nth_slice {A : Type} (lo hi k : nat) (l : list A) (d : A) :
  (k < hi - lo)%nat -> nth k (slice lo hi l) d = nth (lo + k) l d.
Proof.
  intros H. unfold slice. rewrite nth_firstn.
  apply Nat.ltb_lt in H. rewrite H. apply nth_skipn.
Qed.

Lemma Forall_slice {A : Type} (P : A -> Prop) (lo hi : nat) (l : list A) :
  Forall P l -> Forall P (slice lo hi l).
Proof.
  intros H. apply Forall_forall. intros x Hin.
  rewrite Forall_forall in H. apply H.
  unfold slice in Hin.
  rewrite <- (firstn_skipn lo l). apply in_or_app. right.
  rewrite <- (firstn_skipn (hi - lo) (skipn lo l)).
  apply in_or_app. now left.
Qed.

Lemma shaped_Forall {A : Type} (M : list (list A)) (r c : nat) :
  shaped M r c = true <-> length M = r /\ Forall (fun row => length row = c) M.
Proof.
  unfold shaped. rewrite andb_true_iff, Nat.eqb_eq, forallb_forall,
    Forall_forall.
  split; intros [H1 H2]; (split; [exact H1|]); intros x Hx.
  - apply Nat.eqb_eq. now apply H2.
  - apply Nat.eqb_eq. now apply H2.
Qed.

Lemma crop2_shaped {A : Type} (M : list (list A)) (r c i0 i1 j0 j1 : nat) :
  shaped M r c = true -> (i1 <= r)%nat -> (j1 <= c)%nat ->
  shaped (crop2 i0 i1 j0 j1 M) (i1 - i0) (j1 - j0) = true.
Proof.
  intros H Hi Hj. apply shaped_Forall in H. destruct H as [Hl Hrows].
  apply shaped_Forall. unfold crop2. split.
  - rewrite length_map. apply slice_length. lia.
  - apply Forall_map. apply (Forall_slice _ i0 i1) in Hrows.
    revert Hrows. apply Forall_impl. intros row Hrow.
    apply slice_length. lia.
Qed.

Lemma crop2_entry (M : array2) (i0 i1 j0 j1 a b : nat) :
  (a < i1 - i0)%nat -> (b < j1 - j0)%nat ->
  at2 (crop2 i0 i1 j0 j1 M) a b = at2 M (i0 + a) (j0 + b).
Proof.
  intros Ha Hb. unfold at2, crop2.
  rewrite <- (slice_nil j0 j1) at 1.
  rewrite map_nth, nth_slice by exact Hb.
  now rewrite nth_slice by exact Ha.
Qed.

Lemma Forall_zip_with {A B C : Type} (f : A -> B -> C)
    (P : A -> Prop) (Q : B -> Prop) (R : C -> Prop) :
  (forall a b, P a -> Q b -> R (f a b)) ->
  forall l l', Forall P l -> Forall Q l' -> Forall R (zip_with f l l').
Proof.
  intros Hf. induction l as [|a l IH]; intros [|b l'] Hl Hl';
    simpl; try constructor.
  - inversion Hl; inversion Hl'; subst. now apply Hf.
  - inversion Hl; inversion Hl'; subst. now apply IH.
Qed.

Lemma zip_with_shaped {A B C : Type} (f : A -> B -> C)
    (M : list (list A)) (N : list (list B)) (r c : nat) :
  shaped M r c = true -> shaped N r c = true ->
  shaped (zip_with (zip_with f) M N) r c = true.
Proof.
  intros HM HN.
  apply shaped_Forall in HM. destruct HM as [Hl HM].
  apply shaped_Forall in HN. destruct HN as [Hl' HN].
  apply shaped_Forall. split.
  - rewrite zip_with_length; congruence.
  - refine (Forall_zip_with _ _ _ _ _ M N HM HN).
    intros a b Ha Hb. cbv beta in *. rewrite zip_with_length; congruence.
Qed.

Lemma shaped_map {A B : Type} (f : A -> B) (M : list (list A)) (r c : nat) :
  shaped M r c = true -> shaped (map (map f) M) r c = true.
Proof.
  intros H. apply shaped_Forall in H. destruct H as [Hl HM].
  apply shaped_Forall. split; [now rewrite length_map|].
  apply Forall_map. revert HM. apply Forall_impl.
  intros row Hrow. now rewrite length_map.
Qed.

Lemma basin_mask_shaped (b : basin) (thr : float) (r c : nat) :
  consistent b r c = true -> shaped (basin_mask b thr) r c = true.
Proof.
  unfold consistent. intros H.
  repeat (apply andb_true_iff in H; destruct H as [H ?]).
  unfold basin_mask, and_mask, gt_mask.
  apply zip_with_shaped; [assumption|]. now apply shaped_map.
Qed.

Lemma mask_bounds_range (m : mask2) (r c i0 i1 j0 j1 : nat) :
  shaped m r c = true ->
  mask_bounds m = Ok ((i0, i1), (j0, j1)) ->
  (i0 <= i1 < r)%nat /\ (j0 <= j1 < c)%nat
  /\ (exists j, cell m i0 j = true) /\ (exists j, cell m i1 j = true)
  /\ (exists i, cell m i j0 = true) /\ (exists i, cell m i j1 = true).
Proof.
  intros H Hb. unfold mask_bounds in Hb.
  inv_bind Hb. inv_bind Hb.
  destruct a as [r0 r1], a0 as [c0 c1].
  assert (r0 = i0 /\ r1 = i1 /\ c0 = j0 /\ c1 = j1) as (-> & -> & -> & ->)
    by (injection Hb; auto).
  destruct (first_last_where1 _ _ _ E) as (Ri0 & Ri1 & Rb & _).
  destruct (first_last_where1 _ _ _ E0) as (Cj0 & Cj1 & Cb & _).
  apply any_rows_nth in Ri0, Ri1.
  apply (any_cols_nth m r c _ H) in Cj0, Cj1.
  unfold any_rows in Rb. rewrite length_map in Rb.
  destruct (shaped_rows _ _ _ H) as [Hl _].
  rewrite (any_cols_length m r c H) in Cb by lia.
  repeat (split; [first [assumption | lia]|]). assumption.
Qed.

Lemma mask_bounds_Ok (m : mask2) (r c : nat) :
  shaped m r c = true -> any2 m = true ->
  exists i0 i1 j0 j1, mask_bounds m = Ok ((i0, i1), (j0, j1)).
Proof.
  intros H Ha. apply any2_cell in Ha. destruct Ha as (i & j & Hc).
  destruct (first_last_where1_Ok (any_rows m) i) as (i0 & i1 & Ei).
  { apply any_rows_nth. now exists j. }
  destruct (first_last_where1_Ok (any_cols m) j) as (j0 & j1 & Ej).
  { apply (any_cols_nth m r c j H). now exists i. }
  exists i0, i1, j0, j1. unfold mask_bounds. now rewrite Ei, Ej.
Qed.

(** X4. Lines 96 to 103 slice with the last masked row and column as the
    exclusive upper ends [i_bounds[1]] and [j_bounds[1]]: the cropped array
    has one row and one column fewer than the bounding box of the mask, it
    holds the entries of the rows from [i0] up to [i1 - 1] and of the
    columns from [j0] up to [j1 - 1], and the masked entries of row [i1]
    and of column [j1] are left out. *)
Theorem crop_leaves_out_last_row_and_column (m : mask2) (A : array2)
    (r c i0 i1 j0 j1 : nat) :
  shaped m r c = true -> shaped A r c = true ->
  mask_bounds m = Ok ((i0, i1), (j0, j1)) ->
  shaped (crop2 i0 i1 j0 j1 A) (i1 - i0) (j1 - j0) = true
  /\ (forall a b, (a < i1 - i0)%nat -> (b < j1 - j0)%nat ->
        at2 (crop2 i0 i1 j0 j1 A) a b = at2 A (i0 + a) (j0 + b))
  /\ (exists j, cell m i1 j = true)
  /\ (exists i, cell m i j1 = true).
Proof.
  intros Hm HA Hb.
  destruct (mask_bounds_range _ _ _ _ _ _ _ Hm Hb)
    as (Hi & Hj & _ & Hrow & _ & Hcol).
  split; [apply (crop2_shaped A r c); [exact HA|lia|lia]|].
  split; [intros a b; apply crop2_entry|].
  now split.
Qed.

(** ** The largest speed *)

Lemma nanmax_shaped (A : array2) (r c : nat) :
  shaped A r c = true ->
  if (r =? 0)%nat || (c =? 0)%nat then nanmax A = Raise ValueError
  else exists v, nanmax A = Ok v.
Proof.
  intros H. apply shaped_Forall in H. destruct H as [Hl HA].
  unfold nanmax.
  destruct (Nat.eqb_spec r 0) as [->|Hr]; simpl.
  - destruct A; [reflexivity|discriminate].
  - destruct (Nat.eqb_spec c 0) as [->|Hc].
    + replace (concat A) with (@nil float); [reflexivity|].
      symmetry. apply concat_nil_Forall. revert HA. apply Forall_impl.
      intros row Hrow. now destruct row.
    + destruct A as [|row A]; [simpl in Hl; lia|].
      inversion HA; subst.
      destruct row as [|v row]; [simpl in *; lia|].
      simpl. eauto.
Qed.

(** ** Crops of axes *)

Lemma ascending_skipn (n : nat) :
  forall l, RGI.strictly_ascending l = true ->
  RGI.strictly_ascending (skipn n l) = true.
Proof.
  induction n as [|n IH]; intros [|a l] H; simpl; try assumption;
    try reflexivity.
  apply IH. now apply ascending_tl in H.
Qed.

Lemma descending_skipn (n : nat) :
  forall l, RGI.strictly_descending l = true ->
  RGI.strictly_descending (skipn n l) = true.
Proof.
  induction n as [|n IH]; intros [|a l] H; simpl; try assumption;
    try reflexivity.
  apply IH. now apply descending_tl in H.
Qed.

Lemma ascending_firstn (n : nat) :
  forall l, RGI.strictly_ascending l = true ->
  RGI.strictly_ascending (firstn n l) = true.
Proof.
  induction n as [|n IH]; intros [|a l] H; try reflexivity.
  specialize (IH l (ascending_tl _ _ H)).
  destruct l as [|b l]; [destruct n; reflexivity|].
  destruct n as [|n]; [reflexivity|].
  simpl in H. apply andb_true_iff in H. destruct H as [Hab _].
  change (firstn (S (S n)) (a :: b :: l))
    with (a :: b :: firstn n l).
  change (firstn (S n) (b :: l)) with (b :: firstn n l) in IH.
  rewrite ascending_cons2. now rewrite Hab, IH.
Qed.

Lemma descending_firstn (n : nat) :
  forall l, RGI.strictly_descending l = true ->
  RGI.strictly_descending (firstn n l) = true.
Proof.
  induction n as [|n IH]; intros [|a l] H; try reflexivity.
  specialize (IH l (descending_tl _ _ H)).
  destruct l as [|b l]; [destruct n; reflexivity|].
  destruct n as [|n]; [reflexivity|].
  simpl in H. apply andb_true_iff in H. destruct H as [Hab _].
  change (firstn (S (S n)) (a :: b :: l))
    with (a :: b :: firstn n l).
  change (firstn (S n) (b :: l)) with (b :: firstn n l) in IH.
  rewrite descending_cons2. now rewrite Hab, IH.
Qed.

Lemma monotonic_slice (lo hi : nat) (l : array1) :
  monotonic l = true -> monotonic (slice lo hi l) = true.
Proof.
  unfold monotonic, slice. intros H.
  apply orb_true_iff in H. apply orb_true_iff. destruct H as [H|H].
  - left. now apply ascending_firstn, ascending_skipn.
  - right. now apply descending_firstn, descending_skipn.
Qed.

(** ** The meshgrid and the coordinate vectors *)

Lemma meshgrid_row0 (xs ys : array1) :
  ys <> [] -> row0 (fst (meshgrid xs ys)) = Ok xs.
Proof. destruct ys; [contradiction|reflexivity]. Qed.

Lemma meshgrid_col0 (xs ys : array1) :
  xs <> [] -> col0 (snd (meshgrid xs ys)) = Ok ys.
Proof.
  intros Hx. destruct xs as [|x xs]; [contradiction|].
  induction ys as [|y ys IH]; [reflexivity|].
  simpl in *. now rewrite IH.
Qed.

(** ** The outcome of the preparation *)

Lemma where2_shaped (m : mask2) (A : array2) (r c : nat) :
  shaped m r c = true -> shaped A r c = true ->
  shaped (where2 m A) r c = true.
Proof. apply zip_with_shaped. Qed.

Lemma consistent_parts (b : basin) (r c : nat) :
  consistent b r c = true ->
  length (y_subset b) = r /\ length (x_subset b) = c
  /\ shaped (u_subset b) r c = true /\ shaped (v_subset b) r c = true
  /\ shaped (speed_subset b) r c = true.
Proof.
  unfold consistent. intros H.
  repeat (apply andb_true_iff in H; destruct H as [H ?]).
  apply Nat.eqb_eq in H. apply Nat.eqb_eq in H4. auto.
Qed.

Lemma index1_in_range (a : array1) (i : nat) :
  (i < length a)%nat -> index1 a i = Ok (nth i a F64.nan).
Proof.
  intros H. unfold index1. now rewrite (nth_error_nth' a F64.nan H).
Qed.

Lemma prepare_after_bounds (b : basin) (thr : float)
    (r c i0 i1 j0 j1 : nat) :
  consistent b r c = true ->
  any2 (basin_mask b thr) = true ->
  mask_bounds (basin_mask b thr) = Ok ((i0, i1), (j0, j1)) ->
  let mask := crop2 i0 i1 j0 j1 (basin_mask b thr) in
  let xs := slice j0 j1 (x_subset b) in
  let ys := slice i0 i1 (y_subset b) in
  let sm := where2 mask (crop2 i0 i1 j0 j1 (speed_subset b)) in
  exists e,
    inspect_basin_prepare b thr
    = (top <- nanmax sm ;;
       Ok (Some (mk_prepared e top sm
                   (fst (meshgrid xs ys)) (snd (meshgrid xs ys))
                   (where2 mask (crop2 i0 i1 j0 j1 (u_subset b)))
                   (where2 mask (crop2 i0 i1 j0 j1 (v_subset b)))))).
Proof.
  intros Hc Ha Hb.
  pose proof (basin_mask_shaped b thr r c Hc) as Hm.
  destruct (mask_bounds_range _ _ _ _ _ _ _ Hm Hb) as (Hi & Hj & _).
  destruct (consistent_parts _ _ _ Hc) as (Ly & Lx & _).
  cbv zeta. unfold inspect_basin_prepare. cbv zeta.
  rewrite Ha, Hb. cbn [negb bind].
  rewrite !index1_in_range by lia. cbn [bind].
  eexists. reflexivity.
Qed.

(** X5. Lines 84 to 113.  With arrays of one shape, the preparation returns
    early exactly when no entry passes the mask; otherwise it raises
    [ValueError] (from [np.nanmax] on an array without entries) exactly
    when the masked entries lie in a single row or in a single column, and
    hands data on in every other case. *)
Theorem inspect_basin_prepare_outcome (b : basin) (thr : float) (r c : nat) :
  consistent b r c = true ->
  (any2 (basin_mask b thr) = false -> inspect_basin_prepare b thr = Ok None)
  /\ (any2 (basin_mask b thr) = true ->
      exists i0 i1 j0 j1,
        mask_bounds (basin_mask b thr) = Ok ((i0, i1), (j0, j1))
        /\ if (i0 =? i1)%nat || (j0 =? j1)%nat
           then inspect_basin_prepare b thr = Raise ValueError
           else exists d, inspect_basin_prepare b thr = Ok (Some d)).
Proof.
  intros Hc. split.
  - intros Ha. unfold inspect_basin_prepare. cbv zeta. now rewrite Ha.
  - intros Ha.
    pose proof (basin_mask_shaped b thr r c Hc) as Hm.
    destruct (mask_bounds_Ok _ _ _ Hm Ha) as (i0 & i1 & j0 & j1 & Hb).
    exists i0, i1, j0, j1. split; [exact Hb|].
    destruct (mask_bounds_range _ _ _ _ _ _ _ Hm Hb) as (Hi & Hj & _).
    destruct (consistent_parts _ _ _ Hc) as (_ & _ & _ & _ & Hs).
    destruct (prepare_after_bounds b thr r c i0 i1 j0 j1 Hc Ha Hb)
      as (e & ->).
    pose proof (nanmax_shaped _ _ _
                  (where2_shaped _ _ _ _
                     (crop2_shaped _ r c i0 i1 j0 j1 Hm ltac:(lia) ltac:(lia))
                     (crop2_shaped _ r c i0 i1 j0 j1 Hs ltac:(lia)
                        ltac:(lia)))) as Hn.
    replace ((i1 - i0 =? 0)%nat) with ((i0 =? i1)%nat) in Hn
      by (destruct (Nat.eqb_spec i0 i1), (Nat.eqb_spec (i1 - i0) 0);
          try reflexivity; lia).
    replace ((j1 - j0 =? 0)%nat) with ((j0 =? j1)%nat) in Hn
      by (destruct (Nat.eqb_spec j0 j1), (Nat.eqb_spec (j1 - j0) 0);
          try reflexivity; lia).
    destruct ((i0 =? i1)%nat || (j0 =? j1)%nat).
    + now rewrite Hn.
    + destruct Hn as (v & ->). cbn [bind]. eauto.
Qed.

Lemma prepared_well_formed (b : basin) (thr : float)
    (r c : nat) (d : prepared) :
  consistent b r c = true ->
  monotonic (x_subset b) = true -> monotonic (y_subset b) = true ->
  inspect_basin_prepare b thr = Ok (Some d) ->
  well_formed (mesh_X d) (mesh_Y d) (u_stream d) (v_stream d) = true.
Proof.
  intros Hc Mx My Hp.
  pose proof (basin_mask_shaped b thr r c Hc) as Hm.
  destruct (any2 (basin_mask b thr)) eqn:Ha.
  2:{ unfold inspect_basin_prepare in Hp. cbv zeta in Hp.
      rewrite Ha in Hp. discriminate. }
  destruct (mask_bounds_Ok _ _ _ Hm Ha) as (i0 & i1 & j0 & j1 & Hb).
  destruct (mask_bounds_range _ _ _ _ _ _ _ Hm Hb) as (Hi & Hj & _).
  destruct (consistent_parts _ _ _ Hc) as (Ly & Lx & Hu & Hv & Hs).
  destruct (prepare_after_bounds b thr r c i0 i1 j0 j1 Hc Ha Hb)
    as (e & E).
  rewrite E in Hp. clear E.
  pose proof (nanmax_shaped _ _ _
                (where2_shaped _ _ _ _
                   (crop2_shaped _ r c i0 i1 j0 j1 Hm ltac:(lia) ltac:(lia))
                   (crop2_shaped _ r c i0 i1 j0 j1 Hs ltac:(lia)
                      ltac:(lia)))) as Hn.
  destruct (Nat.eqb_spec (i1 - i0) 0) as [Ei|Ei];
    [simpl in Hn; rewrite Hn in Hp; discriminate|].
  destruct (Nat.eqb_spec (j1 - j0) 0) as [Ej|Ej];
    [simpl in Hn; rewrite Hn in Hp; discriminate|].
  simpl in Hn. destruct Hn as (top & Et). rewrite Et in Hp.
  cbn [bind] in Hp. injection Hp as <-. cbn [mesh_X mesh_Y u_stream v_stream].
  assert (Lxs : length (slice j0 j1 (x_subset b)) = (j1 - j0)%nat)
    by (apply slice_length; lia).
  assert (Lys : length (slice i0 i1 (y_subset b)) = (i1 - i0)%nat)
    by (apply slice_length; lia).
  unfold well_formed.
  pose proof (meshgrid_col0 (slice j0 j1 (x_subset b))
                (slice i0 i1 (y_subset b))) as C0.
  pose proof (meshgrid_row0 (slice j0 j1 (x_subset b))
                (slice i0 i1 (y_subset b))) as R0.
  cbn [meshgrid fst snd] in C0, R0.
  rewrite C0, R0 by (intros E0; rewrite E0 in *; simpl in *; lia).
  rewrite Lxs, Lys.
  rewrite (monotonic_slice _ _ _ Mx), (monotonic_slice _ _ _ My).
  change (has_shape ?A ?r ?c) with (shaped A r c).
  rewrite !where2_shaped; try reflexivity;
    apply (crop2_shaped _ r c); assumption || lia.
Qed.


(** ** Masked components *)

Lemma nth_error_zip_with {A B C : Type} (f : A -> B -> C) (l : list A) :
  forall (l' : list B) (i : nat),
  nth_error (zip_with f l l') i
  = match nth_error l i, nth_error l' i with
    | Some a, Some b => Some (f a b)
    | _, _ => None
    end.
Proof.
  induction l as [|a l IH]; intros [|b l'] [|i]; cbn [zip_with nth_error];
    try reflexivity.
  - destruct (nth_error l i); reflexivity.
  - apply IH.
Qed.

(** An entry of [np.where(mask, A, np.nan)]. *)
Lemma entry_where2 (m : mask2) (A : array2) (i j : nat) :
  entry (where2 m A) i j
  = match entry m i j, entry A i j with
    | Some b, Some v => Some (if b then v else F64.nan)
    | _, _ => None
    end.
Proof.
  unfold entry, where2. rewrite nth_error_zip_with.
  destruct (nth_error m i) as [row|]; [|reflexivity].
  destruct (nth_error A i) as [arow|].
  - apply nth_error_zip_with.
  - now destruct (nth_error row j).
Qed.

Lemma entry_in_range {A : Type} (M : list (list A)) (r c i j : nat) (a : A) :
  shaped M r c = true -> entry M i j = Some a -> (i < r)%nat /\ (j < c)%nat.
Proof.
  unfold shaped, entry. intros H E.
  apply andb_true_iff in H. destruct H as [Hr Hc].
  apply Nat.eqb_eq in Hr. rewrite forallb_forall in Hc.
  destruct (nth_error M i) as [row|] eqn:Ei; [|discriminate].
  split.
  - rewrite <- Hr. apply nth_error_Some. congruence.
  - rewrite <- (proj1 (Nat.eqb_eq _ _) (Hc row (nth_error_In _ _ Ei))).
    apply nth_error_Some. congruence.
Qed.

Lemma entry_exists {A : Type} (M : list (list A)) (r c i j : nat) :
  shaped M r c = true -> (i < r)%nat -> (j < c)%nat ->
  exists a, entry M i j = Some a.
Proof.
  unfold shaped, entry. intros H Hi Hj.
  apply andb_true_iff in H. destruct H as [Hr Hc].
  apply Nat.eqb_eq in Hr. rewrite forallb_forall in Hc.
  destruct (nth_error M i) as [row|] eqn:Ei.
  - pose proof (proj1 (Nat.eqb_eq _ _) (Hc row (nth_error_In _ _ Ei))) as L.
    destruct (nth_error row j) as [a|] eqn:Ej; [now exists a|].
    apply nth_error_None in Ej. lia.
  - apply nth_error_None in Ei. lia.
Qed.

Lemma make_shaped (gy gx : array1) (A : array2) (f : RGI.t) :
  RGI.make gy gx A = Ok f -> shaped A (length gy) (length gx) = true.
Proof.
  unfold RGI.make. intros H. inv_bind H. inv_bind H.
  change (RGI.check_dimensionality gy gx A)
    with (shaped A (length gy) (length gx)) in H.
  now destruct (shaped A (length gy) (length gx)).
Qed.

(** Outside the mask the masked component holds NaN. *)
Lemma unmasked_entry_is_nan (m : mask2) (A : array2) (r c : nat)
    (ij : nat * nat) :
  shaped m r c = true -> shaped (where2 m A) r c = true ->
  holds_at negb m ij = true ->
  holds_at F64.isnan (where2 m A) ij = true.
Proof.
  unfold holds_at. intros Hm Hw H.
  destruct (entry m (fst ij) (snd ij)) as [b|] eqn:Em; [|discriminate].
  destruct b; [discriminate|].
  destruct (entry_in_range _ _ _ _ _ _ Hm Em) as [Hi Hj].
  destruct (entry_exists _ _ _ _ _ Hw Hi Hj) as (w & Ew).
  rewrite Ew. rewrite entry_where2, Em in Ew.
  destruct (entry A (fst ij) (snd ij)); [|discriminate].
  now injection Ew as <-.
Qed.

Lemma make_ascending (gy gx : array1) (A : array2) (f : RGI.t) :
  RGI.strictly_ascending gy = true -> RGI.strictly_ascending gx = true ->
  RGI.make gy gx A = Ok f -> f = RGI.mk gy gx A.
Proof.
  intros Hy Hx. unfold RGI.make, RGI.check_points. rewrite Hy, Hx. simpl.
  destruct (RGI.check_dimensionality gy gx A); [|discriminate].
  intros H. now injection H as <-.
Qed.

(** X7. Lines 119, 120 and 130 with [velocity_field].  The components are set
    to NaN outside the mask, so on ascending axes, with a mask of the shape
    of the grid, the velocity is the zero vector at every position for
    which one of the lattice points the interpolator reads lies outside
    the mask: a streamline stalls there, one cell before it leaves the
    masked region. *)
Theorem unmasked_corner_stalls (m : mask2) (U : array2) (gy gx : array1)
    (Ui Vi : RGI.t) (nrm : float * float -> float) (t x y : float) :
  RGI.strictly_ascending gy = true -> RGI.strictly_ascending gx = true ->
  shaped m (length gy) (length gx) = true ->
  RGI.make gy gx (where2 m U) = Ok Ui ->
  unmasked_corner m gy gx y x = true ->
  velocity_field Ui Vi nrm t (x, y) = (F64.zero, F64.zero).
Proof.
  intros Hy Hx Hm HU Hc.
  pose proof (make_shaped _ _ _ _ HU) as Hw.
  rewrite (make_ascending _ _ _ _ Hy Hx HU).
  apply velocity_field_fallback. apply andb_false_iff. left.
  rewrite call_nan_corner; [now rewrite nan_div|].
  unfold nan_corner. cbn [RGI.grid_y RGI.grid_x RGI.values].
  unfold unmasked_corner in Hc.
  apply existsb_exists in Hc. destruct Hc as (ij & Hin & Hij).
  apply existsb_exists. exists ij. split; [exact Hin|].
  exact (unmasked_entry_is_nan _ _ _ _ _ Hm Hw Hij).
Qed.

(** ** The first streamline of a basin *)

(** X8. Line 130.  Whenever the preparation hands data on for a basin with
    strictly monotonic coordinate vectors, the interpolators of
    [streamline] are built without error, and if both solver runs are
    complete the streamline drawn has 19999 points. *)
Theorem inspect_basin_streamline_returns (solve_ivp : solver) (b : basin)
    (p : point) (thr : float) (r c : nat) (d : prepared) :
  consistent b r c = true ->
  monotonic (x_subset b) = true -> monotonic (y_subset b) = true ->
  inspect_basin_prepare b thr = Ok (Some d) ->
  exists velocity,
    make_velocity_field (mesh_X d) (mesh_Y d) (u_stream d) (v_stream d) false
      = Ok velocity
    /\ (complete_run solve_ivp velocity (F64.of_Z 1000000) (start_of b p)
          "LSODA" 10000 ->
        complete_run solve_ivp velocity (F64.opp (F64.of_Z 1000000))
          (start_of b p) "LSODA" 10000 ->
        exists sl,
          inspect_basin_streamline solve_ivp b p thr = Ok (Some sl)
          /\ Z.of_nat (length sl) = 19999).
Proof.
  intros Hc Mx My Hp.
  assert (Hw : well_formed (mesh_X d) (mesh_Y d) (u_stream d) (v_stream d)
               = true).
  { pose proof (basin_mask_shaped b thr r c Hc) as Hm.
    destruct (any2 (basin_mask b thr)) eqn:Ha.
    2:{ unfold inspect_basin_prepare in Hp. cbv zeta in Hp.
        rewrite Ha in Hp. discriminate. }
    destruct (mask_bounds_Ok _ _ _ Hm Ha) as (i0 & i1 & j0 & j1 & Hb).
    now apply (prepared_well_formed b thr r c d). }
  pose proof (make_velocity_field_raises (mesh_X d) (mesh_Y d) (u_stream d)
                (v_stream d) false) as Hr.
  rewrite Hw in Hr.
  destruct (make_velocity_field (mesh_X d) (mesh_Y d) (u_stream d)
              (v_stream d) false) as [vf|e] eqn:Ev; [|discriminate].
  exists vf. split; [reflexivity|].
  intros Hf Hb.
  destruct (streamline_of_complete_runs solve_ivp _ _ _ _ (start_of b p)
              (F64.of_Z 1000000) 10000 "LSODA" false vf
              ltac:(lia) Ev Hf Hb) as (fwd & bwd & E & Lf & Lb).
  exists (rev bwd ++ tl fwd). split.
  - unfold inspect_basin_streamline. rewrite Hp. cbn [bind].
    now rewrite E.
  - rewrite length_app, length_rev, Lb.
    destruct fwd as [|q fwd]; cbn [length tl] in *; lia.
Qed.

(** ** The sample basin *)

Lemma mask_bounds_box_witness :
  (any2 SampleBasin.polygon = false ->
   mask_bounds SampleBasin.polygon = Raise IndexError)
  /\ (any2 SampleBasin.polygon = true ->
      exists i0 i1 j0 j1,
        mask_bounds SampleBasin.polygon = Ok ((i0, i1), (j0, j1))
        /\ (i0 <= i1 < 5)%nat /\ (j0 <= j1 < 5)%nat
        /\ (forall i j, cell SampleBasin.polygon i j = true ->
              (i0 <= i <= i1)%nat /\ (j0 <= j <= j1)%nat)
        /\ (exists j, cell SampleBasin.polygon i0 j = true)
        /\ (exists j, cell SampleBasin.polygon i1 j = true)
        /\ (exists i, cell SampleBasin.polygon i j0 = true)
        /\ (exists i, cell SampleBasin.polygon i j1 = true)).
Proof.
  apply (mask_bounds_box SampleBasin.polygon 5 5). reflexivity.
Defined.

Lemma crop_leaves_out_last_row_and_column_witness :
  shaped (crop2 1 3 1 3 Sample.ones) (3 - 1) (3 - 1) = true
  /\ (forall a b, (a < 3 - 1)%nat -> (b < 3 - 1)%nat ->
        at2 (crop2 1 3 1 3 Sample.ones) a b
        = at2 Sample.ones (1 + a) (1 + b))
  /\ (exists j, cell SampleBasin.polygon 3 j = true)
  /\ (exists i, cell SampleBasin.polygon i 3 = true).
Proof.
  apply (crop_leaves_out_last_row_and_column SampleBasin.polygon
           Sample.ones 5 5 1 3 1 3); reflexivity.
Defined.

Lemma inspect_basin_prepare_outcome_witness :
  (any2 (basin_mask SampleBasin.thin Sample.half) = false ->
   inspect_basin_prepare SampleBasin.thin Sample.half = Ok None)
  /\ (any2 (basin_mask SampleBasin.thin Sample.half) = true ->
      exists i0 i1 j0 j1,
        mask_bounds (basin_mask SampleBasin.thin Sample.half)
          = Ok ((i0, i1), (j0, j1))
        /\ if (i0 =? i1)%nat || (j0 =? j1)%nat
           then inspect_basin_prepare SampleBasin.thin Sample.half
                = Raise ValueError
           else exists d,
               inspect_basin_prepare SampleBasin.thin Sample.half
               = Ok (Some d)).
Proof.
  apply (inspect_basin_prepare_outcome SampleBasin.thin Sample.half 5 5).
  reflexivity.
Defined.


Lemma unmasked_corner_stalls_witness :
  velocity_field
    (RGI.mk (map Sample.z Sample.axis) (map Sample.z Sample.axis)
       (where2 SampleBasin.polygon Sample.ones))
    (RGI.mk (map Sample.z Sample.axis) (map Sample.z Sample.axis)
       Sample.zeros)
    (fun _ => F64.one) F64.zero
    ((Sample.z 7 / Sample.z 2)%f64, Sample.z 2)
  = (F64.zero, F64.zero).
Proof.
  apply (unmasked_corner_stalls SampleBasin.polygon Sample.ones
           (map Sample.z Sample.axis) (map Sample.z Sample.axis));
    vm_compute; reflexivity.
Defined.

Lemma inspect_basin_streamline_returns_witness :
  exists d,
    inspect_basin_prepare SampleBasin.data Sample.half = Ok (Some d)
    /\ exists velocity,
        make_velocity_field (mesh_X d) (mesh_Y d) (u_stream d) (v_stream d)
          false = Ok velocity
        /\ (complete_run euler_ivp velocity (F64.of_Z 1000000)
              (start_of SampleBasin.data (F64.nan, F64.nan)) "LSODA" 10000 ->
            complete_run euler_ivp velocity (F64.opp (F64.of_Z 1000000))
              (start_of SampleBasin.data (F64.nan, F64.nan)) "LSODA" 10000 ->
            exists sl,
              inspect_basin_streamline euler_ivp SampleBasin.data
                (F64.nan, F64.nan) Sample.half = Ok (Some sl)
              /\ Z.of_nat (length sl) = 19999).
Proof.
  eexists. split; [vm_compute; reflexivity|].
  eapply (inspect_basin_streamline_returns euler_ivp SampleBasin.data
            (F64.nan, F64.nan) Sample.half 5 5);
    vm_compute; reflexivity.
Defined.

(** ** The main loop *)

Lemma set_nth_length (i : nat) (p : point) (rows : list point) :
  length (set_nth i p rows) = length rows.
Proof.
  revert i. induction rows as [|r rows IH]; intros [|i]; simpl;
    try reflexivity.
  now rewrite IH.
Qed.

Lemma nth_error_set_nth_same (i : nat) (p : point) (rows : list point) :
  (i < length rows)%nat -> nth_error (set_nth i p rows) i = Some p.
Proof.
  revert i. induction rows as [|r rows IH]; intros [|i] H; simpl in *;
    try lia; try reflexivity.
  apply IH. lia.
Qed.

Lemma nth_error_set_nth_other (i j : nat) (p : point) (rows : list point) :
  i <> j -> nth_error (set_nth i p rows) j = nth_error rows j.
Proof.
  revert i j. induction rows as [|r rows IH]; intros [|i] [|j] H; simpl;
    try reflexivity; try congruence.
  apply IH. congruence.
Qed.

Lemma run_basins_app inspect (l1 l2 : list nat) points file :
  run_basins inspect (l1 ++ l2) points file
  = match run_basins inspect l1 points file with
    | (Ok points', file') => run_basins inspect l2 points' file'
    | (Raise e, file') => (Raise e, file')
    end.
Proof.
  revert points file. induction l1 as [|i l1 IH]; intros points file;
    [reflexivity|].
  simpl. destruct (get_row points i) as [row|e]; [|reflexivity].
  destruct (inspect i row) as [p|e]; [|reflexivity].
  destruct points as [a|rows]; [reflexivity|]. apply IH.
Qed.

(** The loop over the basins from [k] to [k + m - 1], all of which
    return. *)
Lemma run_basins_range inspect (q : nat -> point) (m : nat) :
  forall (k : nat) (rows : list point) (file : option (list point)),
  (k + m <= length rows)%nat ->
  (forall i row, (k <= i < k + m)%nat -> nth_error rows i = Some row ->
     inspect i row = Ok (q i)) ->
  exists rows',
    run_basins inspect (seq k m) (Arr2 rows) file
    = (Ok (Arr2 rows'), if (m =? 0)%nat then file else Some rows')
    /\ length rows' = length rows
    /\ (forall i, (k <= i < k + m)%nat -> nth_error rows' i = Some (q i))
    /\ (forall i, (i < k \/ k + m <= i)%nat ->
          nth_error rows' i = nth_error rows i).
Proof.
  induction m as [|m IH]; intros k rows file Hlen Hq.
  - exists rows. repeat split; try reflexivity. intros i Hi. lia.
  - simpl seq. cbn [run_basins get_row].
    destruct (nth_error rows k) as [row|] eqn:Ek.
    2:{ apply nth_error_None in Ek. lia. }
    rewrite (Hq k row ltac:(lia) Ek).
    destruct (IH (S k) (set_nth k (q k) rows) (Some (set_nth k (q k) rows)))
      as (rows' & Er & Hl & Hin & Hout).
    + rewrite set_nth_length. lia.
    + intros i row' Hi Hrow.
      rewrite nth_error_set_nth_other in Hrow by lia.
      apply Hq; [lia|exact Hrow].
    + exists rows'. split.
      * rewrite Er. destruct m as [|m]; [|reflexivity].
        simpl in Er. injection Er as <-. reflexivity.
      * split; [now rewrite Hl, set_nth_length|]. split.
        -- intros i Hi. destruct (Nat.eq_dec i k) as [->|Hne].
           ++ rewrite Hout by lia. apply nth_error_set_nth_same. lia.
           ++ apply Hin. lia.
        -- intros i Hi. rewrite Hout by lia.
           apply nth_error_set_nth_other. lia.
Qed.

(** X9. Lines 185 to 187.  When the array of saved points has a row for every
    basin and every inspection returns, the loop ends with an array of the
    same size in which row [i] is what [inspect_basin] returned for basin
    [i] given the point saved for that very basin; rows beyond the basins
    are kept, and the file holds the final array. *)
Theorem main_loop_completes inspect (q : nat -> point) (n : nat)
    (file : option (list point)) (rows : list point) :
  load_points n file = Arr2 rows ->
  (n <= length rows)%nat ->
  (forall i row, (i < n)%nat -> nth_error rows i = Some row ->
     inspect i row = Ok (q i)) ->
  exists rows',
    main_loop inspect n file
    = (Ok (Arr2 rows'), if (n =? 0)%nat then file else Some rows')
    /\ length rows' = length rows
    /\ (forall i, (i < n)%nat -> nth_error rows' i = Some (q i))
    /\ (forall i, (n <= i)%nat -> nth_error rows' i = nth_error rows i).
Proof.
  intros Hload Hlen Hq. unfold main_loop. rewrite Hload.
  destruct (run_basins_range inspect q n 0 rows file)
    as (rows' & Er & Hl & Hin & Hout).
  - simpl. exact Hlen.
  - intros i row Hi. apply Hq. lia.
  - exists rows'. split; [exact Er|]. split; [exact Hl|]. split.
    + intros i Hi. apply Hin. lia.
    + intros i Hi. apply Hout. lia.
Qed.

(** X10. Lines 185 to 187.  When the inspection of basin [k] raises after the
    basins before it returned, the loop ends with that exception and the
    file holds the points returned so far: rows below [k] are the new
    points, the others are as loaded.  With [k = 0] the file is left as it
    was. *)
Theorem main_loop_keeps_progress inspect (q : nat -> point) (n k : nat)
    (file : option (list point)) (rows : list point) (row : point) (e : exn) :
  load_points n file = Arr2 rows ->
  (k < n <= length rows)%nat ->
  (forall i r, (i < k)%nat -> nth_error rows i = Some r ->
     inspect i r = Ok (q i)) ->
  nth_error rows k = Some row ->
  inspect k row = Raise e ->
  exists rows',
    main_loop inspect n file
    = (Raise e, if (k =? 0)%nat then file else Some rows')
    /\ length rows' = length rows
    /\ (forall i, (i < k)%nat -> nth_error rows' i = Some (q i))
    /\ (forall i, (k <= i)%nat -> nth_error rows' i = nth_error rows i).
Proof.
  intros Hload Hk Hq Hrow He. unfold main_loop. rewrite Hload.
  replace n with (k + (n - k))%nat by lia.
  rewrite seq_app, run_basins_app.
  destruct (run_basins_range inspect q k 0 rows file)
    as (rows' & Er & Hl & Hin & Hout).
  - simpl. lia.
  - intros i r Hi. apply Hq. lia.
  - rewrite Er. exists rows'.
    split.
    + destruct (n - k)%nat as [|m] eqn:Em; [lia|].
      simpl seq. cbn [run_basins get_row].
      rewrite (Hout k) by lia. rewrite Hrow, He. reflexivity.
    + split; [exact Hl|]. split.
      * intros i Hi. apply Hin. lia.
      * intros i Hi. apply Hout. lia.
Qed.

(** X11. Lines 180 to 186.  A save file with fewer than two rows is read back
    as a one-dimensional array, so with at least one basin the loop raises
    [IndexError] at [points[0, :]] before anything is inspected, and the
    file stays as it was.  A completed run over a single basin leaves such
    a file. *)
Theorem short_save_file_stops_the_loop inspect inspect' (n : nat)
    (rows : list point) (q : point) :
  ((length rows < 2)%nat -> (1 <= n)%nat ->
   main_loop inspect n (Some rows) = (Raise IndexError, Some rows))
  /\ (inspect 0%nat (F64.nan, F64.nan) = Ok q ->
      main_loop inspect 1 None = (Ok (Arr2 [q]), Some [q])
      /\ main_loop inspect' 1 (Some [q]) = (Raise IndexError, Some [q])).
Proof.
  split.
  - intros Hl Hn. unfold main_loop.
    destruct n as [|n]; [lia|].
    destruct rows as [|r [|r' rows]]; [reflexivity|reflexivity|].
    simpl in Hl. lia.
  - intros Hq. split; [|reflexivity].
    unfold main_loop. simpl. now rewrite Hq.
Qed.

(** ** Settings *)

Lemma lookup_update_same {V : Type} (k : string) (v : V)
    (l : list (string * V)) :
  lookup k (update k v l) = Some v.
Proof.
  induction l as [|[k0 w] l IH]; simpl.
  - now rewrite String.eqb_refl.
  - destruct (String.eqb k0 k) eqn:E; simpl; rewrite E; [reflexivity|].
    exact IH.
Qed.

Lemma lookup_update_other {V : Type} (k k' : string) (v : V)
    (l : list (string * V)) :
  k <> k' -> lookup k' (update k v l) = lookup k' l.
Proof.
  intros Hne. induction l as [|[k0 w] l IH]; simpl.
  - apply String.eqb_neq in Hne. now rewrite Hne.
  - destruct (String.eqb k0 k) eqn:E; simpl.
    + apply String.eqb_eq in E. subst k0.
      apply String.eqb_neq in Hne. now rewrite Hne.
    + now rewrite IH.
Qed.

Lemma checked_path_nonempty before_get cfg key v :
  checked_path before_get cfg key = Ok v -> v <> ""%string.
Proof.
  unfold checked_path.
  destruct (lookup "Paths"%string cfg) as [sec|]; [|discriminate].
  cbv zeta.
  destruct (match lookup key sec with
            | Some v0 => Some v0
            | None => lookup key (section_of cfg "DEFAULT"%string)
            end) as [raw|]; [|discriminate].
  destruct (before_get cfg "Paths"%string key raw) as [value|e];
    [|discriminate].
  cbn [bind]. destruct (String.eqb value ""%string) eqn:E; [discriminate|].
  intros H. injection H as <-. now apply String.eqb_neq.
Qed.

Lemma startup_first_run before_get (fs : files) :
  (forall cfg sec key, before_get cfg sec key ""%string = Ok ""%string) ->
  user_ini fs = None ->
  startup before_get fs
  = (Raise ValueError, mk_files (default_ini fs) (Some empty_paths)).
Proof.
  intros Hb Hu. unfold startup. rewrite Hu. cbv zeta.
  cbn [user_ini default_ini].
  f_equal.
  set (cfg1 := read_into empty_paths (default_ini fs)).
  unfold read_into at 1, empty_paths at 1. cbn [fold_left fst snd].
  unfold checked_path at 1. rewrite lookup_update_same. cbv zeta.
  unfold merge_options. cbn [fold_left fst snd].
  rewrite lookup_update_other by discriminate.
  rewrite lookup_update_same, Hb. reflexivity.
Qed.

(** X12. Lines 26 to 40.  On a run that finds no [settings.ini], the script
    writes one with both paths empty, reads it after the defaults, and so
    raises [ValueError] whatever [settings.default.ini] holds: the empty
    values of the new file override the defaults. *)
Theorem first_run_raises before_get (fs : files) :
  (forall cfg sec key, before_get cfg sec key ""%string = Ok ""%string) ->
  user_ini fs = None ->
  startup before_get fs
  = (Raise ValueError, mk_files (default_ini fs) (Some empty_paths)).
Proof. apply startup_first_run. Qed.

(** X13. Lines 26 to 42.  A start that gets past the checks found a
    [settings.ini] in place, wrote no file, and has a non-empty path for
    the shapefile and for the velocity data. *)
Theorem startup_success before_get (fs fs' : files) (shp vel : string) :
  (forall cfg sec key, before_get cfg sec key ""%string = Ok ""%string) ->
  startup before_get fs = (Ok (shp, vel), fs') ->
  fs' = fs /\ user_ini fs <> None
  /\ shp <> ""%string /\ vel <> ""%string.
Proof.
  intros Hb H.
  destruct (user_ini fs) as [u|] eqn:Eu.
  2:{ rewrite (startup_first_run before_get fs Hb Eu) in H. discriminate. }
  unfold startup in H. rewrite Eu in H. cbv zeta in H.
  injection H as H <-.
  inv_bind H. inv_bind H. injection H as <- <-.
  split; [reflexivity|]. split; [discriminate|].
  split; eapply checked_path_nonempty; eassumption.
Qed.

(** ** The orientation of the y axis *)

Lemma ltb_not_same_label (a b : float) :
  F64.ltb b a = true -> same_label a b = false.
Proof.
  unfold same_label, F64.ltb, F64.eqb, SFltb, SFeqb.
  destruct a as [sa|sa| |sa ma ea], b as [sb|sb| |sb mb eb]; simpl;
    repeat match goal with s : bool |- _ => destruct s end;
    try discriminate; try reflexivity.
  all: change (Pos.compare_cont Eq) with Pos.compare;
    rewrite (Z.compare_antisym ea eb), (Pos.compare_antisym ma mb);
    destruct (ea ?= eb), (ma ?= mb)%positive; simpl;
    try discriminate; try reflexivity.
Qed.

Lemma descending_above_rest (l : array1) :
  forall a, RGI.strictly_descending (a :: l) = true ->
  Forall (fun b => F64.ltb b a = true) l.
Proof.
  induction l as [|b l IH]; intros a H; [constructor|].
  rewrite descending_cons2 in H. apply andb_true_iff in H.
  destruct H as [Hab H]. constructor; [exact Hab|].
  specialize (IH b H). revert IH. apply Forall_impl.
  intros c Hc. now apply (ltb_trans c b a).
Qed.

Lemma descending_no_duplicates (l : array1) :
  RGI.strictly_descending l = true -> has_duplicates l = false.
Proof.
  induction l as [|a l IH]; intros H; [reflexivity|].
  simpl. rewrite (IH (descending_tl _ _ H)), orb_false_r.
  pose proof (descending_above_rest l a H) as Hall.
  destruct (existsb (same_label a) l) eqn:E; [|reflexivity].
  apply existsb_exists in E. destruct E as (b & Hin & Hs).
  rewrite Forall_forall in Hall.
  now rewrite (ltb_not_same_label a b (Hall b Hin)) in Hs.
Qed.

(** X15. Lines 48 to 50.  For a dataset whose [y] axis is strictly monotonic
    and has two entries or more, the step returns a dataset whose [y] axis
    is strictly ascending: either the dataset as it was, or the dataset
    with its labels and the rows of every variable reversed together. *)
Theorem flip_y_ascending (ds : dataset) :
  monotonic (ds_y ds) = true -> (2 <= length (ds_y ds))%nat ->
  exists ds',
    flip_y ds = Ok ds'
    /\ RGI.strictly_ascending (ds_y ds') = true
    /\ ds_x ds' = ds_x ds
    /\ (ds' = ds
        \/ (ds_y ds' = rev (ds_y ds)
            /\ ds_vars ds' = map (@rev array1) (ds_vars ds))).
Proof.
  intros Hm Hl. unfold flip_y.
  destruct (ds_y ds) as [|y0 [|y1 ys]] eqn:Ey; simpl in Hl; try lia.
  cbn [index1 nth_error bind].
  unfold monotonic in Hm. apply orb_true_iff in Hm.
  destruct Hm as [Ha|Hd].
  - pose proof Ha as Ha'. rewrite ascending_cons2 in Ha'.
    apply andb_true_iff in Ha'. destruct Ha' as [H01 _].
    rewrite (ltb_asym _ _ H01).
    exists ds. rewrite Ey. auto.
  - pose proof Hd as Hd'. rewrite descending_cons2 in Hd'.
    apply andb_true_iff in Hd'. destruct Hd' as [H10 _].
    rewrite H10. unfold reindex_y_reversed. rewrite Ey.
    rewrite (descending_no_duplicates _ Hd).
    eexists. split; [reflexivity|]. cbn [ds_y ds_x ds_vars].
    split; [now apply descending_rev|]. auto.
Qed.

(** ** The kind of error at construction *)

Lemma col0_raise (Y : array2) (e : exn) :
  col0 Y = Raise e -> e = IndexError.
Proof.
  induction Y as [|r Y IH]; [discriminate|].
  destruct r as [|a r]; simpl.
  - intros H. now injection H as <-.
  - destruct (col0 Y); [discriminate|]. simpl. auto.
Qed.

Lemma row0_raise (X : array2) (e : exn) :
  row0 X = Raise e -> e = IndexError.
Proof. destruct X; [|discriminate]. intros H. now injection H as <-. Qed.

Lemma make_raise_kind (gy gx : array1) (A : array2) (e : exn) :
  RGI.make gy gx A = Raise e -> e = ValueError.
Proof.
  unfold RGI.make, RGI.check_points.
  destruct (RGI.strictly_ascending gy), (RGI.strictly_descending gy),
    (RGI.strictly_ascending gx), (RGI.strictly_descending gx); simpl;
    try (destruct (RGI.check_dimensionality gy gx A));
    intros H; try discriminate; now injection H as <-.
Qed.

(** X16. Lines 24 to 27 of [streamline].  On a field that is not well formed
    the call raises [IndexError] when a coordinate vector is missing ([X]
    without a row, [Y] with a row without entries), and [ValueError] when
    the vectors are there but not strictly monotonic or the components are
    of another shape. *)
Theorem streamline_error_kind (solve_ivp : solver) X Y U V p t n m b :
  well_formed X Y U V = false ->
  streamline solve_ivp X Y U V p t n m b
  = Raise (if raises (col0 Y) || raises (row0 X)
           then IndexError else ValueError).
Proof.
  intros Hw.
  pose proof (make_velocity_field_raises X Y U V b) as Hr.
  rewrite Hw in Hr. simpl in Hr.
  unfold streamline.
  destruct (make_velocity_field X Y U V b) as [vf|e] eqn:Ev; [discriminate|].
  cbn [bind]. f_equal.
  unfold make_velocity_field in Ev.
  destruct (col0 Y) as [gy|e0] eqn:Ey.
  2:{ simpl in Ev. injection Ev as <-. simpl. now apply (col0_raise Y). }
  destruct (row0 X) as [gx|e0] eqn:Ex.
  2:{ simpl in Ev. injection Ev as <-. simpl. now apply (row0_raise X). }
  simpl. cbn [bind] in Ev.
  destruct (RGI.make gy gx U) as [Ui|e0] eqn:EU.
  2:{ simpl in Ev. injection Ev as <-. now apply (make_raise_kind gy gx U). }
  destruct (RGI.make gy gx V) as [Vi|e0] eqn:EV.
  2:{ simpl in Ev. injection Ev as <-. now apply (make_raise_kind gy gx V). }
  cbn [bind] in Ev. destruct b.
  - destruct (RGI.make gy gx (speed_of U V)) as [N|e0] eqn:EN;
      [discriminate|].
    simpl in Ev. injection Ev as <-.
    now apply (make_raise_kind gy gx (speed_of U V)).
  - discriminate.
Qed.

(** ** Sample runs *)

Lemma main_loop_completes_witness :
  exists rows',
    main_loop SampleRun.inspect_all 3 None
    = (Ok (Arr2 rows'), if (3 =? 0)%nat then None else Some rows')
    /\ length rows' = length (repeat (F64.nan, F64.nan) 3)
    /\ (forall i, (i < 3)%nat ->
          nth_error rows' i = Some (SampleRun.answer i))
    /\ (forall i, (3 <= i)%nat ->
          nth_error rows' i
          = nth_error (repeat (F64.nan, F64.nan) 3) i).
Proof.
  apply (main_loop_completes SampleRun.inspect_all SampleRun.answer 3 None
           (repeat (F64.nan, F64.nan) 3)).
  - reflexivity.
  - simpl. lia.
  - intros i row _ _. reflexivity.
Defined.

Lemma main_loop_keeps_progress_witness :
  exists rows',
    main_loop SampleRun.inspect_two 3 None
    = (Raise (OtherError "SystemExit"),
       if (2 =? 0)%nat then None else Some rows')
    /\ length rows' = length (repeat (F64.nan, F64.nan) 3)
    /\ (forall i, (i < 2)%nat ->
          nth_error rows' i = Some (SampleRun.answer i))
    /\ (forall i, (2 <= i)%nat ->
          nth_error rows' i
          = nth_error (repeat (F64.nan, F64.nan) 3) i).
Proof.
  apply (main_loop_keeps_progress SampleRun.inspect_two SampleRun.answer
           3 2 None (repeat (F64.nan, F64.nan) 3) (F64.nan, F64.nan)).
  - reflexivity.
  - simpl. lia.
  - intros i r Hi _. unfold SampleRun.inspect_two.
    apply Nat.ltb_lt in Hi. now rewrite Hi.
  - reflexivity.
  - reflexivity.
Defined.

Lemma first_run_raises_witness :
  startup SampleRun.no_interpolation
    (mk_files (Some SampleRun.defaults_file) None)
  = (Raise ValueError,
     mk_files (Some SampleRun.defaults_file) (Some empty_paths)).
Proof.
  apply (first_run_raises SampleRun.no_interpolation
           (mk_files (Some SampleRun.defaults_file) None)).
  - reflexivity.
  - reflexivity.
Defined.

Lemma startup_success_witness :
  mk_files (Some SampleRun.defaults_file) (Some SampleRun.user_file)
  = mk_files (Some SampleRun.defaults_file) (Some SampleRun.user_file)
  /\ Some SampleRun.user_file <> None
  /\ "my.shp"%string <> ""%string /\ "v.nc"%string <> ""%string.
Proof.
  apply (startup_success SampleRun.no_interpolation
           (mk_files (Some SampleRun.defaults_file)
              (Some SampleRun.user_file))).
  - reflexivity.
  - vm_compute. reflexivity.
Defined.

Lemma flip_y_ascending_witness :
  exists ds',
    flip_y SampleRun.descending = Ok ds'
    /\ RGI.strictly_ascending (ds_y ds') = true
    /\ ds_x ds' = ds_x SampleRun.descending
    /\ (ds' = SampleRun.descending
        \/ (ds_y ds' = rev (ds_y SampleRun.descending)
            /\ ds_vars ds'
               = map (@rev array1) (ds_vars SampleRun.descending))).
Proof.
  apply (flip_y_ascending SampleRun.descending).
  - vm_compute. reflexivity.
  - simpl. lia.
Defined.

Lemma streamline_error_kind_witness :
  streamline euler_ivp [] Sample.Y Sample.ones Sample.zeros
    (Sample.z 2, Sample.z 2) (Sample.z 1) 3 "LSODA" false
  = Raise (if raises (col0 Sample.Y) || raises (row0 [])
           then IndexError else ValueError).
Proof.
  apply (streamline_error_kind euler_ivp [] Sample.Y Sample.ones
           Sample.zeros).
  reflexivity.
Defined.

(** ** Settings files *)

Lemma lookup_In {V : Type} (k : string) (v : V) (l : list (string * V)) :
  lookup k l = Some v -> In k (map fst l).
Proof.
  induction l as [|[k0 w] l IH]; [discriminate|]. simpl.
  destruct (String.eqb k0 k) eqn:E.
  - apply String.eqb_eq in E. now left.
  - intros H. right. now apply IH.
Qed.

Lemma merge_options_other (k : string) (new : options) :
  forall old, ~ In k (map fst new) ->
  lookup k (merge_options new old) = lookup k old.
Proof.
  unfold merge_options.
  induction new as [|[k0 v0] new IH]; intros old Hn; [reflexivity|].
  simpl in *. rewrite IH by tauto.
  apply lookup_update_other. tauto.
Qed.

Lemma merge_options_sets (k v : string) (new : options) :
  forall old, NoDup (map fst new) -> lookup k new = Some v ->
  lookup k (merge_options new old) = Some v.
Proof.
  induction new as [|[k0 v0] new IH]; intros old Hd Hl; [discriminate|].
  simpl in Hd. inversion Hd as [|? ? Hnin Hd']; subst.
  simpl in Hl. unfold merge_options. cbn [fold_left fst snd].
  destruct (String.eqb k0 k) eqn:E.
  - apply String.eqb_eq in E. subst k0. injection Hl as ->.
    fold (merge_options new (update k v old)).
    rewrite merge_options_other by exact Hnin.
    apply lookup_update_same.
  - now apply IH.
Qed.

Lemma read_sections_other (name : string) (secs : settings) :
  forall cfg, ~ In name (map fst secs) ->
  lookup name (read_into cfg (Some secs)) = lookup name cfg.
Proof.
  unfold read_into.
  induction secs as [|[n0 o0] secs IH]; intros cfg Hn; [reflexivity|].
  simpl in *. rewrite IH by tauto.
  apply lookup_update_other. tauto.
Qed.

Lemma read_sections_sets (name : string) (opts : options) (secs : settings) :
  forall cfg, NoDup (map fst secs) -> lookup name secs = Some opts ->
  lookup name (read_into cfg (Some secs))
  = Some (merge_options opts (section_of cfg name)).
Proof.
  induction secs as [|[n0 o0] secs IH]; intros cfg Hd Hl; [discriminate|].
  simpl in Hd. inversion Hd as [|? ? Hnin Hd']; subst.
  simpl in Hl. unfold read_into. cbn [fold_left fst snd].
  destruct (String.eqb n0 name) eqn:E.
  - apply String.eqb_eq in E. subst n0. injection Hl as ->.
    pose proof (read_sections_other name secs
                  (update name (merge_options opts (section_of cfg name)) cfg)
                  Hnin) as H.
    unfold read_into in H. rewrite H. apply lookup_update_same.
  - pose proof (IH (update n0 (merge_options o0 (section_of cfg n0)) cfg)
                  Hd' Hl) as H.
    unfold read_into in H. rewrite H. f_equal. f_equal.
    unfold section_of. rewrite lookup_update_other; [reflexivity|].
    now apply String.eqb_neq.
Qed.

(** X14. Lines 35 to 42.  When [settings.ini] exists and its section [Paths]
    sets both paths to non-empty values that interpolation leaves alone,
    the start succeeds with exactly these two values, whatever
    [settings.default.ini] holds, and writes no file. *)
Theorem user_settings_override before_get (fs : files) (u : settings)
    (sec : options) (shp vel : string) :
  user_ini fs = Some u ->
  NoDup (map fst u) -> lookup "Paths"%string u = Some sec ->
  NoDup (map fst sec) ->
  lookup "shapefile"%string sec = Some shp ->
  lookup "velocity_data"%string sec = Some vel ->
  (forall cfg, before_get cfg "Paths" "shapefile" shp = Ok shp)%string ->
  (forall cfg, before_get cfg "Paths" "velocity_data" vel = Ok vel)%string ->
  shp <> ""%string -> vel <> ""%string ->
  startup before_get fs = (Ok (shp, vel), fs).
Proof.
  intros Hu Du Hp Ds Hs Hv Bs Bv Ns Nv.
  unfold startup. rewrite Hu. cbv beta iota zeta. rewrite Hu. f_equal.
  set (cfg := read_into (read_into [] (default_ini fs)) (Some u)).
  assert (Hsec : lookup "Paths"%string cfg
                 = Some (merge_options sec
                           (section_of (read_into [] (default_ini fs))
                              "Paths"%string)))
    by (apply read_sections_sets; assumption).
  unfold checked_path. rewrite Hsec. cbv zeta.
  rewrite (merge_options_sets _ _ _ _ Ds Hs),
    (merge_options_sets _ _ _ _ Ds Hv).
  rewrite Bs, Bv. cbn [bind].
  apply String.eqb_neq in Ns. apply String.eqb_neq in Nv.
  now rewrite Ns, Nv.
Qed.

Lemma user_settings_override_witness :
  startup SampleRun.no_interpolation
    (mk_files (Some SampleRun.defaults_file) (Some SampleRun.user_file))
  = (Ok ("my.shp", "v.nc")%string,
     mk_files (Some SampleRun.defaults_file) (Some SampleRun.user_file)).
Proof.
  apply (user_settings_override SampleRun.no_interpolation _
           SampleRun.user_file
           [("shapefile", "my.shp"); ("velocity_data", "v.nc")]%string).
  - reflexivity.
  - repeat constructor; simpl; tauto.
  - reflexivity.
  - repeat constructor; simpl; intuition discriminate.
  - reflexivity.
  - reflexivity.
  - reflexivity.
  - reflexivity.
  - discriminate.
  - discriminate.
Defined.

(** ** A basin without a masked entry *)

Lemma inspect_basin_early_return solve show (b : basin) (p : point)
    (thr : float) :
  any2 (basin_mask b thr) = false ->
  inspect_basin solve show b p thr = Ok (F64.nan, F64.nan).
Proof.
  intros Ha. unfold inspect_basin, inspect_basin_streamline,
    inspect_basin_prepare. cbv zeta. now rewrite Ha.
Qed.

(** X17. Lines 84 to 86 with the loop of lines 185 to 187.  In a run in which
    every inspection returns, a basin without an entry that passes the
    mask ends with the point (NaN, NaN) in its row of the array and of the
    file, whatever point was saved for it before: neither the solver nor
    the session is consulted for it. *)
Theorem unmasked_basin_resets_saved_point (solve_ivp : solver)
    (show : nat -> point -> result point) (basins : nat -> basin)
    (thr : float) (q : nat -> point) (n k : nat)
    (file : option (list point)) (rows : list point) :
  load_points n file = Arr2 rows ->
  (k < n <= length rows)%nat ->
  (forall i row, (i < n)%nat -> nth_error rows i = Some row ->
     inspect_basin solve_ivp (show i) (basins i) row thr = Ok (q i)) ->
  any2 (basin_mask (basins k) thr) = false ->
  exists rows',
    main_loop
      (fun i row => inspect_basin solve_ivp (show i) (basins i) row thr)
      n file
    = (Ok (Arr2 rows'), Some rows')
    /\ nth_error rows' k = Some (F64.nan, F64.nan).
Proof.
  intros Hload Hk Hq Ha. unfold main_loop. rewrite Hload.
  destruct (run_basins_range
              (fun i row =>
                 inspect_basin solve_ivp (show i) (basins i) row thr)
              q n 0 rows file) as (rows' & Er & _ & Hin & _).
  - simpl. lia.
  - intros i row Hi. apply Hq. lia.
  - exists rows'. split.
    + rewrite Er. destruct n; [lia|reflexivity].
    + rewrite Hin by lia. f_equal.
      destruct (nth_error rows k) as [row|] eqn:Ek.
      2:{ apply nth_error_None in Ek. lia. }
      specialize (Hq k row ltac:(lia) Ek).
      rewrite (inspect_basin_early_return _ _ _ _ _ Ha) in Hq.
      now injection Hq.
Qed.

Lemma unmasked_basin_resets_saved_point_witness :
  exists rows',
    main_loop
      (fun i row =>
         inspect_basin euler_ivp (fun p => Ok p) SampleBasin.outside row
           Sample.half)
      2 (Some [(Sample.z 1, Sample.z 1); (Sample.z 2, Sample.z 2)])
    = (Ok (Arr2 rows'), Some rows')
    /\ nth_error rows' 1 = Some (F64.nan, F64.nan).
Proof.
  apply (unmasked_basin_resets_saved_point euler_ivp
           (fun _ p => Ok p) (fun _ => SampleBasin.outside) Sample.half
           (fun _ => (F64.nan, F64.nan)) 2 1
           (Some [(Sample.z 1, Sample.z 1); (Sample.z 2, Sample.z 2)])
           [(Sample.z 1, Sample.z 1); (Sample.z 2, Sample.z 2)]).
  - reflexivity.
  - simpl. lia.
  - intros i row _ _. apply inspect_basin_early_return. reflexivity.
  - reflexivity.
Defined.
